(** * The Reflector of client-go's cache package and the kubelet's
      pod container deletor, embedded from

      - staging/src/k8s.io/client-go/tools/cache/reflector.go
      - pkg/kubelet/pod_container_deletor.go

    Go values are modelled as the code has them: [int64] and [int] as [Z],
    strings as [string], slices as lists indexed with stdpp's lookup (an index
    out of range panics, as in Go), interfaces that may be nil as [option],
    and the store behind the [Store] interface as a state threaded through a
    small state-and-panic monad together with the trace of the effects the
    code performs on its collaborators (store calls, goroutines started,
    requests sent, sleeps).  A [select] is resolved by the environment: the
    case that fires is an input of the model. *)

From Stdlib Require Import Ascii String ZArith Lia.
From stdpp Require Import base gmap strings list pretty sorting.

Open Scope Z_scope.

(** ** Go runtime values shared by both packages *)

(** What a Go [panic] carries in the code below. *)
Inductive PanicValue :=
| IndexOutOfRange (i : nat) (len : nat)   (* s[i] with len(s) <= i *)
| SliceOutOfRange (lo : Z) (len : nat)    (* s[lo:] with lo < 0 or len(s) < lo *)
| NilDereference                          (* method call on a nil interface *)
| Recovered (v : string).                 (* a value re-raised from panicCh *)

Inductive Outcome (A : Type) :=
| Done (a : A)
| Panic (v : PanicValue).
Arguments Done {A} a.
Arguments Panic {A} v.

(** [int] and [int64] arithmetic wraps around at 64 bits. *)
Definition wrap_int64 (z : Z) : Z := (z + 2 ^ 63) `mod` 2 ^ 64 - 2 ^ 63.

(** [s[i]] on a slice. *)
Definition slice_index {A} (s : list A) (i : nat) : Outcome A :=
  match s !! i with
  | Some x => Done x
  | None => Panic (IndexOutOfRange i (length s))
  end.

(** ** fmt.Sprintf, for the verbs the code uses *)

Inductive FmtArg :=
| FStr (s : string)
| FInt64 (z : Z).

(** The default format ([%v], and [%+v], whose plus flag only changes how
    struct fields print): a string prints as itself, an integer in decimal. *)
Definition fmt_v (a : option FmtArg) : string :=
  match a with
  | Some (FStr s) => s
  | Some (FInt64 z) => pretty z
  | None => "%!v(MISSING)"
  end.

(** [%s]: a string prints as itself; an integer is reported as a bad verb. *)
Definition fmt_s (a : option FmtArg) : string :=
  match a with
  | Some (FStr s) => s
  | Some (FInt64 z) => "%!s(int64=" +:+ pretty z +:+ ")"
  | None => "%!s(MISSING)"
  end.

Fixpoint Sprintf (format : string) (args : list FmtArg) : string :=
  match format with
  | EmptyString => EmptyString
  | String "%"%char (String "s"%char rest) => fmt_s (head args) +:+ Sprintf rest (tail args)
  | String "%"%char (String "v"%char rest) => fmt_v (head args) +:+ Sprintf rest (tail args)
  | String "%"%char (String "+"%char (String "v"%char rest)) =>
      fmt_v (head args) +:+ Sprintf rest (tail args)
  | String c rest => String c (Sprintf rest args)
  end.

Module Cache.

(** ** Data model (reflector.go, and the types it takes from apimachinery) *)

(** A [reflect.Type], identified by its name. *)
Definition GoType := string.

(** The object metadata [meta.Accessor] gives access to. *)
Record ObjectMeta := {
  Name : string;
  ResourceVersion : string;
}.

(** A [runtime.Object]: its dynamic type, and its metadata when it has any
    ([meta.Accessor] fails on an object without, such as a [Status]). *)
Record Object := {
  dynType : GoType;
  objectMeta : option ObjectMeta;
}.

(** [watch.EventType] is a string type with five declared constants. *)
Inductive EventType :=
| Added | Modified | Deleted | Bookmark | Error
| OtherEventType (s : string).

Record Event := {
  Type_ : EventType;
  Object_ : Object;
}.

(** Go errors.  The three package-level sentinels are compared by identity in
    the code, so they are constructors of their own and differ from any
    [errors.New] of the same text.  For [fmt.Errorf] the format string and the
    error operand (when there is one) are kept; the message is not rendered. *)
Inductive GoError :=
| io_EOF
| io_ErrUnexpectedEOF
| errorResyncRequested
| errorStopRequested
| errorResetRequested
| errors_New (msg : string)
| fmt_Errorf (format : string)                    (* no error operand *)
| fmt_Errorf_err (format : string) (err : GoError) (* with the operand err *)
| url_Error (Err : GoError)          (* *url.Error{Err: ...} *)
| net_OpError (Err : GoError)        (* *net.OpError{Err: ...} *)
| os_SyscallError (Err : GoError)    (* *os.SyscallError{Err: ...} *)
| syscall_Errno (errno : Z)
| FromObject (obj : Object).         (* apierrs.FromObject(obj), never nil *)

(** [syscall.ECONNREFUSED] (0x6f on linux). *)
Definition ECONNREFUSED : Z := 111.

(** [metav1.ListOptions], the fields the reflector sets. *)
Record ListOptions := {
  optResourceVersion : string;
  TimeoutSeconds : option Z;
  AllowWatchBookmarks : bool;
  FieldSelector : string;
}.

(** The list object the pager returns: [meta.ListAccessor] gives the terminal
    resource version and [meta.ExtractList] the items; either may fail with
    an error. *)
Record ListResult := {
  listResourceVersion : string + GoError;
  listItems : list Object + GoError;
}.

(** The payload of the reset channel is an [interface{}]. *)
Inductive Signal :=
| SigNil                         (* a nil interface value *)
| SigInt64s (s : list Z)         (* a []int64 *)
| SigOther (ty : GoType).        (* a value of any other type *)

(** The [Store] interface: every method returns an error and may change the
    store. *)
Class Store (S : Type) := {
  store_Add : Object → S → option GoError * S;
  store_Update : Object → S → option GoError * S;
  store_Delete : Object → S → option GoError * S;
  store_Replace : list Object → string → S → option GoError * S;
  store_Resync : S → option GoError * S;
}.

Inductive StoreCall :=
| CallAdd (obj : Object)
| CallUpdate (obj : Object)
| CallDelete (obj : Object)
| CallReplace (items : list Object) (resourceVersion : string)
| CallResync.

Inductive Goroutine := ListHelper | ResyncWorker.

(** The effects of the reflector on its collaborators, in program order. *)
Inductive Effect :=
| EStore (c : StoreCall)                   (* a method call on r.store *)
| EHandleError (e : GoError)               (* utilruntime.HandleError *)
| EGo (g : Goroutine)                      (* a go statement *)
| EList (options : ListOptions) (pageSize : Z)   (* pager.List *)
| EWatch (options : ListOptions)           (* r.listerWatcher.Watch *)
| ESleep (d : Z)                           (* time.Sleep, nanoseconds *)
| EWatchStop                               (* the deferred w.Stop() *)
| ECancelSend                              (* cancelCh <- struct{}{} *)
| ECancelClose.                            (* the deferred close(cancelCh) *)

Definition is_store_call (e : Effect) : bool :=
  match e with EStore _ => true | _ => false end.

Definition is_go (e : Effect) : bool :=
  match e with EGo _ => true | _ => false end.

Definition is_list (e : Effect) : bool :=
  match e with EList _ _ => true | _ => false end.

Section Reflector.
Context {S : Type} `{!Store S}.

(** The [Reflector] struct.  [listerWatcher], [clock] and [metrics] are
    collaborators driven by the environment; [resetCh] records whether the
    pointer is non-nil; [ShouldResync] is [None] for a nil func and
    [Some b] for a func that answers [b]. *)
Record Reflector := {
  name : string;
  expectedType : option GoType;
  store : S;
  period : Z;
  resyncPeriod : Z;
  ShouldResync : option bool;
  lastSyncResourceVersion : string;
  WatchListPageSize : Z;
  resetCh : bool;
  ownerKind : string;
  bounds : list Z;
}.

Definition with_store (s : S) (r : Reflector) : Reflector :=
  {| name := name r; expectedType := expectedType r; store := s;
     period := period r; resyncPeriod := resyncPeriod r;
     ShouldResync := ShouldResync r;
     lastSyncResourceVersion := lastSyncResourceVersion r;
     WatchListPageSize := WatchListPageSize r; resetCh := resetCh r;
     ownerKind := ownerKind r; bounds := bounds r |}.

Definition with_lastSyncResourceVersion (v : string) (r : Reflector) : Reflector :=
  {| name := name r; expectedType := expectedType r; store := store r;
     period := period r; resyncPeriod := resyncPeriod r;
     ShouldResync := ShouldResync r;
     lastSyncResourceVersion := v;
     WatchListPageSize := WatchListPageSize r; resetCh := resetCh r;
     ownerKind := ownerKind r; bounds := bounds r |}.

Definition with_bounds (b : list Z) (r : Reflector) : Reflector :=
  {| name := name r; expectedType := expectedType r; store := store r;
     period := period r; resyncPeriod := resyncPeriod r;
     ShouldResync := ShouldResync r;
     lastSyncResourceVersion := lastSyncResourceVersion r;
     WatchListPageSize := WatchListPageSize r; resetCh := resetCh r;
     ownerKind := ownerKind r; bounds := b |}.

Definition with_reset (kind : string) (r : Reflector) : Reflector :=
  {| name := name r; expectedType := expectedType r; store := store r;
     period := period r; resyncPeriod := resyncPeriod r;
     ShouldResync := ShouldResync r;
     lastSyncResourceVersion := lastSyncResourceVersion r;
     WatchListPageSize := WatchListPageSize r; resetCh := true;
     ownerKind := kind; bounds := bounds r |}.

(** The reflector together with the effects performed so far (newest
    first). *)
Record World := {
  refl : Reflector;
  trace : list Effect;
}.

(** State-and-panic monad of the methods of [*Reflector]. *)
Definition M (A : Type) : Type := World → Outcome (A * World).

Definition ret {A} (a : A) : M A := λ w, Done (a, w).

Definition bind {A B} (m : M A) (k : A → M B) : M B :=
  λ w, match m w with
       | Done (a, w') => k a w'
       | Panic v => Panic v
       end.

Definition get : M Reflector := λ w, Done (refl w, w).

Definition modify (f : Reflector → Reflector) : M unit :=
  λ w, Done (tt, {| refl := f (refl w); trace := trace w |}).

Definition emit (e : Effect) : M unit :=
  λ w, Done (tt, {| refl := refl w; trace := e :: trace w |}).

Definition lift {A} (o : Outcome A) : M A :=
  λ w, match o with Done a => Done (a, w) | Panic v => Panic v end.

End Reflector.

Arguments Reflector S : clear implicits.
Arguments World S : clear implicits.
Arguments M S A : clear implicits.

#[global] Instance M_ret {S} : MRet (M S) := λ A, @ret S A.
#[global] Instance M_bind {S} : MBind (M S) := λ A B k m, @bind S A B m k.

Section Methods.
Context {S : Type} `{!Store S}.

(** *** NewNamedReflector, NewReflectorWithReset (lines 119-140)

    [reflect.TypeOf(expectedType)] is nil for a nil [expectedType]. *)
Definition NewNamedReflector (name : string) (expectedType : option GoType)
    (store : S) (resyncPeriod : Z) : Reflector S :=
  {| name := name;
     expectedType := expectedType;
     store := store;
     period := 1000000000;               (* time.Second *)
     resyncPeriod := resyncPeriod;
     ShouldResync := None;
     lastSyncResourceVersion := "";
     WatchListPageSize := 0;
     resetCh := false;
     ownerKind := "";
     bounds := [-1; -1] |}.

Definition NewReflectorWithReset (name : string) (expectedType : option GoType)
    (store : S) (resyncPeriod : Z) (ownerKind : string) : Reflector S :=
  with_reset ownerKind (NewNamedReflector name expectedType store resyncPeriod).

(** *** setLastSyncResourceVersion (lines 523-527) *)
Definition setLastSyncResourceVersion (v : string) : M S unit :=
  modify (with_lastSyncResourceVersion v).

(** *** appendFieldSelector (lines 533-540) *)
Definition appendFieldSelector (target fieldSelector : ListOptions) : ListOptions :=
  let fs :=
    if (String.length (FieldSelector target) =? 0)%nat
    then FieldSelector fieldSelector
    else FieldSelector target +:+ "," +:+ FieldSelector fieldSelector in
  {| optResourceVersion := optResourceVersion target;
     TimeoutSeconds := TimeoutSeconds target;
     AllowWatchBookmarks := AllowWatchBookmarks target;
     FieldSelector := fs |}.

(** *** setBounds (lines 542-546)

    [newBounds, _ := signal.([]int64)] leaves [newBounds] nil when the
    assertion fails; the arguments of the log call are evaluated, in order,
    before the assignment. *)
Definition assert_int64s (signal : Signal) : list Z :=
  match signal with
  | SigInt64s s => s
  | _ => []
  end.

Definition setBounds (signal : Signal) : M S unit :=
  let newBounds := assert_int64s signal in
  r ← get;
  lift (slice_index (bounds r) 0);;
  lift (slice_index (bounds r) 1);;
  lift (slice_index newBounds 0);;
  lift (slice_index newBounds 1);;
  modify (with_bounds newBounds).

(** *** isInitBounds (lines 548-554) *)
Definition isInitBounds : M S bool :=
  r ← get;
  b0 ← lift (slice_index (bounds r) 0);
  if b0 =? -1 then
    b1 ← lift (slice_index (bounds r) 1);
    ret (b1 =? -1)
  else ret false.

(** *** createHashkeyListOptions (lines 556-571) *)
Definition selector_options (fs : string) : ListOptions :=
  {| optResourceVersion := ""; TimeoutSeconds := None;
     AllowWatchBookmarks := false; FieldSelector := fs |}.

Definition createHashkeyListOptions : M S ListOptions :=
  r ← get;
  b0 ← lift (slice_index (bounds r) 0);
  let operator := if b0 =? 0 then "gte" else "gt" in
  if negb (String.eqb (ownerKind r) "") then
    b0 ← lift (slice_index (bounds r) 0);
    b1 ← lift (slice_index (bounds r) 1);
    ret (selector_options
           (Sprintf "metadata.ownerReferences.hashkey.%s=%s:%v,metadata.ownerReferences.hashkey.%s=lte:%+v"
              [FStr (ownerKind r); FStr operator; FInt64 b0;
               FStr (ownerKind r); FInt64 b1]))
  else
    b0 ← lift (slice_index (bounds r) 0);
    b1 ← lift (slice_index (bounds r) 1);
    ret (selector_options
           (Sprintf "metadata.hashkey=%s:%v,metadata.hashkey=lte:%+v"
              [FStr operator; FInt64 b0; FInt64 b1])).


(** A method call on [r.store]: the store changes and the call is traced. *)
Definition store_call (c : StoreCall) : M S (option GoError) :=
  λ w,
    let '(err, s') :=
      match c with
      | CallAdd obj => store_Add obj (store (refl w))
      | CallUpdate obj => store_Update obj (store (refl w))
      | CallDelete obj => store_Delete obj (store (refl w))
      | CallReplace items rv => store_Replace items rv (store (refl w))
      | CallResync => store_Resync (store (refl w))
      end in
    Done (err, {| refl := with_store s' (refl w); trace := EStore c :: trace w |}).

Definition HandleError (e : GoError) : M S unit := emit (EHandleError e).

(** *** syncWith (lines 397-404) *)
Definition syncWith (items : list Object) (resourceVersion : string)
    : M S (option GoError) :=
  let found := foldl (λ found item, found ++ [item]) [] items in
  store_call (CallReplace found resourceVersion).

(** *** watchHandlerHelper (lines 471-513)

    Returns the error, the event count and the value left in
    [*resourceVersion]. *)
Definition type_mismatch (e : option GoType) (a : GoType) : bool :=
  match e with
  | Some t => negb (String.eqb t a)       (* e != nil && e != a *)
  | None => false
  end.

Definition watchHandlerHelper (event : Event) (resourceVersion : string)
    (eventCount : Z) : M S (option GoError * Z * string) :=
  match Type_ event with
  | Error => mret (Some (FromObject (Object_ event)), eventCount, resourceVersion)
  | _ =>
    r ← get;
    if type_mismatch (expectedType r) (dynType (Object_ event)) then
      HandleError (fmt_Errorf "%s: expected type %v, but watch event object had type %v");;
      mret (None, eventCount, resourceVersion)
    else
      match objectMeta (Object_ event) with
      | None =>
        HandleError (fmt_Errorf "%s: unable to understand watch event %#v");;
        mret (None, eventCount, resourceVersion)
      | Some meta =>
        let newResourceVersion := ResourceVersion meta in
        match Type_ event with
        | Added =>
          err ← store_call (CallAdd (Object_ event));
          match err with
          | Some err => HandleError (fmt_Errorf_err "%s: unable to add watch event object (%#v) to store: %v" err)
          | None => mret tt
          end
        | Modified =>
          err ← store_call (CallUpdate (Object_ event));
          match err with
          | Some err => HandleError (fmt_Errorf_err "%s: unable to update watch event object (%#v) to store: %v" err)
          | None => mret tt
          end
        | Deleted =>
          err ← store_call (CallDelete (Object_ event));
          match err with
          | Some err => HandleError (fmt_Errorf_err "%s: unable to delete watch event object (%#v) from store: %v" err)
          | None => mret tt
          end
        | Bookmark => mret tt
        | _ => HandleError (fmt_Errorf "%s: unable to understand watch event %#v")
        end;;
        setLastSyncResourceVersion newResourceVersion;;
        mret (None, wrap_int64 (eventCount + 1), newResourceVersion)
      end
  end.

(** *** watchHandler (lines 407-469)

    One case of the [select] in the loop, as chosen by the environment.
    [CaseReset None] and [CaseClosed] are the receives with [ok == false];
    [CaseClosed] carries the value [r.clock.Since(start)] returns after the
    loop (the clock is a collaborator). *)
Inductive HandlerCase :=
| CaseStop
| CaseReset (signal : option Signal)
| CaseErrc (err : GoError)
| CaseEvent (event : Event)
| CaseClosed (watchDuration : Z).

Inductive LoopStep :=
| Continue (resourceVersion : string) (eventCount : Z)
| Return (err : option GoError) (resourceVersion : string).

Definition Second : Z := 1000000000.

Definition errVeryShortWatch : GoError :=
  fmt_Errorf "very short watch: %s: Unexpected watch close - watch lasted less than a second and no items received".

(** Lines 463-468, after the loop. *)
Definition watchHandler_closed (watchDuration eventCount : Z) : option GoError :=
  if (watchDuration <? 1 * Second) && (eventCount =? 0)
  then Some errVeryShortWatch
  else None.

(** Whether the [select] has the case at all: the reset case exists only
    in the branch for [r.resetCh != nil]. *)
Definition case_enabled (r : Reflector S) (c : HandlerCase) : bool :=
  match c with
  | CaseReset _ => resetCh r
  | _ => true
  end.

(** One iteration of the loop (lines 416-461), and lines 463-468 when the
    result channel is closed.  The deferred [w.Stop()] runs at every
    return. *)
Definition watchHandler_select (c : HandlerCase) (resourceVersion : string)
    (eventCount : Z) : M S LoopStep :=
  match c with
  | CaseStop =>
    emit EWatchStop;; mret (Return (Some errorStopRequested) resourceVersion)
  | CaseReset None =>
    emit EWatchStop;;
    mret (Return (Some (errors_New "Reset channel closed")) resourceVersion)
  | CaseReset (Some signal) =>
    (* a panic unwinds through the deferred w.Stop() as well; the trace of
       a panicking run is not kept *)
    setBounds signal;;
    emit EWatchStop;; mret (Return (Some errorResetRequested) resourceVersion)
  | CaseErrc err =>
    emit EWatchStop;; mret (Return (Some err) resourceVersion)
  | CaseEvent event =>
    '(err, eventCount', resourceVersion') ←
      watchHandlerHelper event resourceVersion eventCount;
    match err with
    | Some err => emit EWatchStop;; mret (Return (Some err) resourceVersion')
    | None => mret (Continue resourceVersion' eventCount')
    end
  | CaseClosed watchDuration =>
    emit EWatchStop;;
    mret (Return (watchHandler_closed watchDuration eventCount) resourceVersion)
  end.

(** The handler on the sequence of cases its [select] takes.  It returns
    [inr (err, *resourceVersion)], or [inl] with its loop variables when
    it is still waiting in the [select] after the last case. *)
Fixpoint watchHandler_loop (cases : list HandlerCase) (resourceVersion : string)
    (eventCount : Z) : M S (string * Z + option GoError * string) :=
  match cases with
  | [] => mret (inl (resourceVersion, eventCount))
  | c :: cases =>
    r ← get;
    if case_enabled r c then
      s ← watchHandler_select c resourceVersion eventCount;
      match s with
      | Continue resourceVersion' eventCount' =>
        watchHandler_loop cases resourceVersion' eventCount'
      | Return err resourceVersion' => mret (inr (err, resourceVersion'))
      end
    else watchHandler_loop cases resourceVersion eventCount
  end.

Definition watchHandler (cases : list HandlerCase) (resourceVersion : string)
    : M S (string * Z + option GoError * string) :=
  watchHandler_loop cases resourceVersion 0.


(** *** ListAndWatch (lines 201-395)

    ListAndWatch is a machine that runs from one blocking point to the
    next.  The blocking points are the three [select]s it waits in and the
    two blocking calls of the watch loop. *)
Inductive Pc :=
| AtBounds                                   (* select, line 212 *)
| AtList                                     (* select, line 262 *)
| AtWatch (resourceVersion : string)         (* r.listerWatcher.Watch, line 349 *)
| AtSleep (resourceVersion : string)         (* time.Sleep, line 366 *)
| AtHandler (resourceVersion : string) (eventCount : Z)
                                             (* select of watchHandler *)
| Finished (err : option GoError)            (* ListAndWatch returned err *)
| Panicked (v : PanicValue).

(** What the environment does next: the case a [select] takes, or the
    return of a blocking call. *)
Inductive Input :=
| InStop                                     (* stopCh is closed *)
| InReset (signal : option Signal)           (* r.resetCh.Read; None: closed *)
| InListDone (list : ListResult) (err : option GoError)  (* close(listCh) *)
| InListPanic (v : string)                   (* panicCh <- v *)
| InWatchOpened                              (* Watch returned (w, nil) *)
| InWatchFailed (err : GoError)              (* Watch returned (nil, err) *)
| InSleepDone
| InResyncTick                               (* the worker takes <-resyncCh *)
| InErrc                                     (* the handler takes <-errc *)
| InEvent (event : Event)
| InClosed (watchDuration : Z)               (* ResultChan closed *)
| InPeriod.                                  (* the timer of wait.Until *)

(** [stopClosed]: the stop channel is closed.  [resyncAlive]: the resync
    worker of this call is running.  [resyncerrc]: the content of the
    one-slot channel.  [rand n]: the n-th value drawn for
    [int64(minWatchTimeout.Seconds() * (rand.Float64() + 1.0))]. *)
Record Machine := {
  world : World S;
  pc : Pc;
  stopClosed : bool;
  resyncAlive : bool;
  resyncerrc : option GoError;
  rand : nat → Z;
  draws : nat;
}.

Definition set_world (w : World S) (m : Machine) : Machine :=
  {| world := w; pc := pc m; stopClosed := stopClosed m;
     resyncAlive := resyncAlive m; resyncerrc := resyncerrc m;
     rand := rand m; draws := draws m |}.

Definition set_pc (p : Pc) (m : Machine) : Machine :=
  {| world := world m; pc := p; stopClosed := stopClosed m;
     resyncAlive := resyncAlive m; resyncerrc := resyncerrc m;
     rand := rand m; draws := draws m |}.

Definition set_stopClosed (m : Machine) : Machine :=
  {| world := world m; pc := pc m; stopClosed := true;
     resyncAlive := resyncAlive m; resyncerrc := resyncerrc m;
     rand := rand m; draws := draws m |}.

Definition set_resync (alive : bool) (errc : option GoError) (m : Machine)
    : Machine :=
  {| world := world m; pc := pc m; stopClosed := stopClosed m;
     resyncAlive := alive; resyncerrc := errc;
     rand := rand m; draws := draws m |}.

Definition draw (m : Machine) : Machine :=
  {| world := world m; pc := pc m; stopClosed := stopClosed m;
     resyncAlive := resyncAlive m; resyncerrc := resyncerrc m;
     rand := rand m; draws := Datatypes.S (draws m) |}.

(** Run a method on the reflector of the machine; a panic ends the call. *)
Definition exec {A} (m : Machine) (c : M S A) (k : A → Machine → Machine)
    : Machine :=
  match c (world m) with
  | Done (a, w) => k a (set_world w m)
  | Panic v => set_pc (Panicked v) m
  end.

(** A return after line 298: the deferred [close(cancelCh)] ends the
    resync worker. *)
Definition finish (err : option GoError) (m : Machine) : Machine :=
  exec m (emit ECancelClose)
    (λ _ m, set_pc (Finished err) (set_resync false (resyncerrc m) m)).

(** Head of the watch loop, lines 325-349. *)
Definition watch_loop (resourceVersion : string) (m : Machine) : Machine :=
  if stopClosed m then finish None m
  else
    let timeoutSeconds := rand m (draws m) in
    let options :=
      {| optResourceVersion := resourceVersion;
         TimeoutSeconds := Some timeoutSeconds;
         AllowWatchBookmarks := false;
         FieldSelector := "" |} in
    exec (draw m)
      (r ← get;
       options ← (if resetCh r
                  then sel ← createHashkeyListOptions;
                       mret (appendFieldSelector options sel)
                  else mret options);
       emit (EWatch options))
      (λ _ m, set_pc (AtWatch resourceVersion) m).

(** Lines 296-322: the resync worker is started, then the watch loop. *)
Definition start_resync (resourceVersion : string) (m : Machine) : Machine :=
  exec m (emit (EGo ResyncWorker))
    (λ _ m, watch_loop resourceVersion (set_resync true None m)).

(** Lines 241-260: the list helper is started with the options; a page
    size of 0 leaves the pager its default. *)
Definition start_list (options : ListOptions) (m : Machine) : Machine :=
  exec m
    (emit (EGo ListHelper);;
     r ← get;
     emit (EList options (WatchListPageSize r)))
    (λ _ m, set_pc AtList m).

Definition list_options : ListOptions :=
  {| optResourceVersion := "0"; TimeoutSeconds := None;
     AllowWatchBookmarks := false; FieldSelector := "" |}.

(** Line 232 and the start of the list. *)
Definition list_with_bounds (m : Machine) : Machine :=
  exec m createHashkeyListOptions
    (λ sel m, start_list (appendFieldSelector list_options sel) m).

(** Lines 201-260: from the call to the first blocking point.  Both
    selects of the reset mode return nil when the stop channel is closed
    already (lines 213-214 and 224-225); with it open the first one waits
    for the stop or for the bounds and the second one falls through.  A
    signal that would be ready at the very moment the first select finds the
    stop channel closed is not represented: inputs come one at a time. *)
Definition ListAndWatch (m : Machine) : Machine :=
  let m := set_resync false None m in
  if resetCh (refl (world m)) then
    exec m isInitBounds
      (λ init m,
         if stopClosed m then set_pc (Finished None) m
         else if init then set_pc AtBounds m
         else list_with_bounds m)
  else start_list list_options m.

(** Lines 269-293, after [<-listCh]. *)
Definition after_list (list : ListResult) (err : option GoError) (m : Machine)
    : Machine :=
  match err with
  | Some err =>
    set_pc (Finished (Some (fmt_Errorf_err "%s: Failed to list %v: %v" err))) m
  | None =>
    match listResourceVersion list with
    | inr err =>
      set_pc (Finished (Some (fmt_Errorf_err
        "%s: Unable to understand list result %#v: %v" err))) m
    | inl resourceVersion =>
      match listItems list with
      | inr err =>
        set_pc (Finished (Some (fmt_Errorf_err
          "%s: Unable to understand list result %#v (%v)" err))) m
      | inl items =>
        exec m (syncWith items resourceVersion)
          (λ err m,
             match err with
             | Some err =>
               set_pc (Finished (Some (fmt_Errorf_err
                 "%s: Unable to sync list result: %v" err))) m
             | None =>
               exec m (setLastSyncResourceVersion resourceVersion)
                 (λ _ m, start_resync resourceVersion m)
             end)
      end
    end
  end.

(** Lines 363-365: the three type assertions and the errno test. *)
Definition isConnectionRefused (err : GoError) : bool :=
  match err with
  | url_Error (net_OpError (syscall_Errno errno)) => errno =? ECONNREFUSED
  | _ => false
  end.

(** Lines 350-372: [Watch] returned an error. *)
Definition watch_failed (resourceVersion : string) (err : GoError)
    (m : Machine) : Machine :=
  exec m
    (match err with
     | io_EOF => mret tt
     | io_ErrUnexpectedEOF => mret tt          (* logged with klog only *)
     | _ => HandleError (fmt_Errorf_err "%s: Failed to watch %v: %v" err)
     end)
    (λ _ m,
       if isConnectionRefused err then
         exec m (emit (ESleep Second)) (λ _ m, set_pc (AtSleep resourceVersion) m)
       else finish None m).

(** Lines 374-393: [watchHandler] returned.  The send on [cancelCh] is
    taken when the worker is there to receive it. *)
Definition after_handler (err : option GoError) (resourceVersion : string)
    (m : Machine) : Machine :=
  match err with
  | None => watch_loop resourceVersion m
  | Some errorResetRequested =>
    if resyncAlive m then
      exec m (emit ECancelSend)
        (λ _ m, finish (Some errorResetRequested)
                  (set_resync false (resyncerrc m) m))
    else finish (Some errorResetRequested) m
  | Some _ => finish None m
  end.

Definition handler_case (c : HandlerCase) (resourceVersion : string)
    (eventCount : Z) (m : Machine) : Machine :=
  if case_enabled (refl (world m)) c then
    exec m (watchHandler_select c resourceVersion eventCount)
      (λ s m,
         match s with
         | Continue resourceVersion' eventCount' =>
           set_pc (AtHandler resourceVersion' eventCount') m
         | Return err resourceVersion' => after_handler err resourceVersion' m
         end)
  else m.

(** Lines 299-322: one turn of the resync worker on its timer. *)
Definition resync_tick (m : Machine) : Machine :=
  let r := refl (world m) in
  if resyncAlive m && negb (resyncPeriod r =? 0) then
    match ShouldResync r with
    | Some false => m
    | _ =>
      exec m (store_call CallResync)
        (λ err m,
           match err with
           | Some err => set_resync false (Some err) m
           | None => m
           end)
    end
  else m.

(** One input at a blocking point.  An input the machine does not wait for
    leaves it where it is, except that a closed stop channel stays
    closed. *)
Definition step (m : Machine) (i : Input) : Machine :=
  match pc m, i with
  | AtBounds, InStop => set_pc (Finished None) (set_stopClosed m)
  | AtBounds, InReset None => set_pc (Finished None) m
  | AtBounds, InReset (Some signal) =>
    exec m (setBounds signal) (λ _ m, list_with_bounds m)
  | AtList, InStop => start_resync "" (set_stopClosed m)
  | AtList, InListPanic v => set_pc (Panicked (Recovered v)) m
  | AtList, InListDone list err => after_list list err m
  | AtWatch _, InStop => set_stopClosed m
  | AtWatch rv, InWatchOpened => set_pc (AtHandler rv 0) m
  | AtWatch rv, InWatchFailed err => watch_failed rv err m
  | AtWatch _, InResyncTick => resync_tick m
  | AtSleep _, InStop => set_stopClosed m
  | AtSleep rv, InSleepDone => watch_loop rv m
  | AtSleep _, InResyncTick => resync_tick m
  | AtHandler rv n, InStop => handler_case CaseStop rv n (set_stopClosed m)
  | AtHandler rv n, InReset signal => handler_case (CaseReset signal) rv n m
  | AtHandler rv n, InErrc =>
    match resyncerrc m with
    | Some err => handler_case (CaseErrc err) rv n (set_resync (resyncAlive m) None m)
    | None => m
    end
  | AtHandler rv n, InEvent event => handler_case (CaseEvent event) rv n m
  | AtHandler rv n, InClosed d => handler_case (CaseClosed d) rv n m
  | AtHandler _ _, InResyncTick => resync_tick m
  | _, _ => m
  end.

Definition run (m : Machine) (inputs : list Input) : Machine :=
  foldl step m inputs.

(** A machine for a reflector about to call ListAndWatch. *)
Definition boot (r : Reflector S) (rand : nat → Z) : Machine :=
  {| world := {| refl := r; trace := [] |};
     pc := Finished None;
     stopClosed := false;
     resyncAlive := false;
     resyncerrc := None;
     rand := rand;
     draws := 0 |}.

(** The blocking points at which ListAndWatch waits on the stop channel. *)
Definition at_select (p : Pc) : bool :=
  match p with
  | AtBounds | AtList | AtHandler _ _ => true
  | _ => false
  end.

(** *** Run (lines 148-168) *)
Inductive RunPc :=
| InListAndWatch          (* inside r.ListAndWatch *)
| WaitPeriod              (* in wait.Until, between two calls of the func *)
| RunExited
| RunPanicked (v : PanicValue).

Record RunState := {
  machine : Machine;
  runPc : RunPc;
}.

(** Modelled from the spec: wait.Until (k8s.io/apimachinery/pkg/util/wait)
    is not part of the sources at hand.  It executes the func in a loop
    spaced by the period and exits when stop fires: after the func
    returns it waits for the stop channel or the period timer, and with
    the stop channel already closed it returns. *)
Definition until_wait (m : Machine) : RunState :=
  {| machine := m;
     runPc := if stopClosed m then RunExited else WaitPeriod |}.

(** Lines 150-167, the func passed to wait.Until, from a blocking point or
    a return of ListAndWatch on.  The loop of the reset mode may go on
    without ever blocking; [fuel] bounds the number of calls of
    ListAndWatch and [None] says it did not suffice. *)
Fixpoint Run_func (fuel : nat) (m : Machine) : option RunState :=
  match pc m with
  | Finished err =>
    if resetCh (refl (world m)) then
      match err with
      | None | Some errorResetRequested =>
        (* [err == nil], or the [continue]: the [for] goes round *)
        match fuel with
        | O => None
        | Datatypes.S fuel => Run_func fuel (ListAndWatch m)
        end
      | Some err =>
        Some (until_wait (exec m (HandleError err) (λ _ m, m)))
      end
    else
      match err with
      | Some err =>
        Some (until_wait (exec m (HandleError err) (λ _ m, m)))
      | None => Some (until_wait m)
      end
  | Panicked v => Some {| machine := m; runPc := RunPanicked v |}
  | _ => Some {| machine := m; runPc := InListAndWatch |}
  end.

(** Run, from the call to its first blocking point. *)
Definition Run (fuel : nat) (m : Machine) : option RunState :=
  if stopClosed m then Some {| machine := m; runPc := RunExited |}
  else Run_func fuel (ListAndWatch m).

(** One input to a running reflector. *)
Definition Run_step (fuel : nat) (s : RunState) (i : Input) : option RunState :=
  match runPc s, i with
  | InListAndWatch, _ => Run_func fuel (step (machine s) i)
  | WaitPeriod, InStop =>
    Some {| machine := set_stopClosed (machine s); runPc := RunExited |}
  | WaitPeriod, InPeriod => Run_func fuel (ListAndWatch (machine s))
  | _, _ => Some s
  end.

End Methods.

Arguments Machine S : clear implicits.
Arguments RunState S : clear implicits.

End Cache.

Module Kubelet.

(** ** pod_container_deletor.go *)

(** [kubecontainer.ContainerID]. *)
Record ContainerID := {
  ContainerID_Type : string;
  ContainerID_ID : string;
}.

(** [kubecontainer.ContainerStatus], the fields the deletor reads;
    [CreatedAt] is a [time.Time], as nanoseconds. *)
Record ContainerStatus := {
  ID : ContainerID;
  Name : string;
  State : string;
  CreatedAt : Z;
}.

Record PodStatus := {
  ContainerStatuses : list ContainerStatus;
}.

Section Deletor.
(** What the file takes from other packages: the implementation behind
    the [internalapi.RuntimeService] interface with its [RemoveContainer]
    (whose error the deletor discards), the type behind
    [kubecontainer.Runtime], the constant [ContainerStateExited] and
    [ContainerID.String]. *)
Context {R KR : Type}.
Variable RemoveContainer : string → R → R.
Variable ContainerStateExited : string.
Variable ContainerID_String : ContainerID → string.

(** A nil [runtime] interface is [None]. *)
Record podContainerDeletor := {
  containersToKeep : Z;
  runtime : option R;
}.

(** Lines 40-42: [Less(i, j)] is [a[i].CreatedAt.After(a[j].CreatedAt)]. *)
Definition Less (a b : ContainerStatus) : bool := CreatedAt b <? CreatedAt a.

(** [sort.Sort] by [Less].  Go leaves the order of elements with equal
    keys open; the model keeps them in their order. *)
Fixpoint insert_sorted (x : ContainerStatus) (l : list ContainerStatus)
    : list ContainerStatus :=
  match l with
  | [] => [x]
  | y :: l' => if Less x y then x :: l else y :: insert_sorted x l'
  end.

Definition sort_Sort (l : list ContainerStatus) : list ContainerStatus :=
  foldl (λ acc x, insert_sorted x acc) [] l.

(** Lines 44-49. *)
Definition newPodContainerDeletor (runtime : KR) (containersToKeep : Z)
    : podContainerDeletor :=
  {| containersToKeep := containersToKeep;
     runtime := None |}.

(** Lines 54-64. *)
Definition matchedContainer (filterContainerId : string) (podStatus : PodStatus)
    : option ContainerStatus :=
  if String.eqb filterContainerId "" then None
  else
    List.find (λ containerStatus,
                 String.eqb (ContainerID_ID (ID containerStatus)) filterContainerId)
      (ContainerStatuses podStatus).

(** Lines 53-87.  [candidates[containersToKeep:]] panics on a negative
    bound. *)
Definition getContainersToDeleteInPod (filterContainerID : string)
    (podStatus : PodStatus) (containersToKeep : Z)
    : Outcome (list ContainerStatus) :=
  let matched := matchedContainer filterContainerID podStatus in
  if negb (String.eqb filterContainerID "") && negb (bool_decide (is_Some matched))
  then Done []
  else
    let candidates :=
      List.filter
        (λ containerStatus,
           String.eqb (State containerStatus) ContainerStateExited
           && match matched with
              | None => true
              | Some m => String.eqb (Name m) (Name containerStatus)
              end)
        (ContainerStatuses podStatus) in
    if Z.of_nat (length candidates) <=? containersToKeep then Done []
    else
      let sorted := sort_Sort candidates in
      if containersToKeep <? 0
      then Panic (SliceOutOfRange containersToKeep (length sorted))
      else Done (drop (Z.to_nat containersToKeep) sorted).

(** The loop of lines 97-99: a method call on a nil [runtime] panics. *)
Fixpoint removeContainers (runtime : option R) (candidates : list ContainerStatus)
    : Outcome (option R) :=
  match candidates with
  | [] => Done runtime
  | candidate :: candidates =>
    match runtime with
    | None => Panic NilDereference
    | Some rt =>
      removeContainers
        (Some (RemoveContainer (ContainerID_String (ID candidate)) rt))
        candidates
    end
  end.

(** Lines 90-100. *)
Definition deleteContainersInPod (p : podContainerDeletor)
    (filterContainerID : string) (podStatus : PodStatus) (removeAll : bool)
    : Outcome podContainerDeletor :=
  let containersToKeep' := if removeAll then 0 else containersToKeep p in
  let filterContainerID := if removeAll then "" else filterContainerID in
  match getContainersToDeleteInPod filterContainerID podStatus containersToKeep' with
  | Panic v => Panic v
  | Done candidates =>
    match removeContainers (runtime p) candidates with
    | Panic v => Panic v
    | Done rt => Done {| containersToKeep := containersToKeep p; runtime := rt |}
    end
  end.

(** Lines 102-104. *)
Definition setRuntime (p : podContainerDeletor) (runtimeService : option R)
    : podContainerDeletor :=
  {| containersToKeep := containersToKeep p; runtime := runtimeService |}.

End Deletor.

Arguments podContainerDeletor R : clear implicits.

End Kubelet.

(** ** A keyed store, and the vocabulary of the specification *)

Module KeyedStore.
Import Cache.

(** Modelled from the spec: the store behind the [Store] interface
    (store.go) is not part of the sources at hand.  The spec describes the
    store by the objects it holds, by identity: [Add] and [Update] put the
    object under its key, [Delete] removes it, [Replace] replaces the whole
    content by the items listed, [Resync] consults nobody and changes
    nothing.  The key of an object is its name; an object without metadata
    has no key and the call fails. *)
Definition object_key (obj : Object) : option string := Name <$> objectMeta obj.

Definition errNoKey : GoError := errors_New "object has no meta".

Definition put (obj : Object) (s : gmap string Object)
    : option GoError * gmap string Object :=
  match object_key obj with
  | Some k => (None, <[k := obj]> s)
  | None => (Some errNoKey, s)
  end.

Definition remove (obj : Object) (s : gmap string Object)
    : option GoError * gmap string Object :=
  match object_key obj with
  | Some k => (None, delete k s)
  | None => (Some errNoKey, s)
  end.

Definition replace (items : list Object) (resourceVersion : string)
    (s : gmap string Object) : option GoError * gmap string Object :=
  if forallb (λ obj, bool_decide (is_Some (object_key obj))) items
  then (None,
        foldl (λ s obj, match object_key obj with
                        | Some k => <[k := obj]> s
                        | None => s
                        end) ∅ items)
  else (Some errNoKey, s).

#[global] Instance keyed_store : Store (gmap string Object) := {|
  store_Add := put;
  store_Update := put;
  store_Delete := remove;
  store_Replace := replace;
  store_Resync s := (None, s);
|}.

End KeyedStore.

Import Cache.

(** The field selector in the words of the specification. *)
Definition spec_selector (ownerKind : string) (lo hi : Z) : string :=
  let op := if bool_decide (lo = 0) then "gte" else "gt" in
  if bool_decide (ownerKind = "")
  then "metadata.hashkey=" +:+ op +:+ ":" +:+ pretty lo
       +:+ ",metadata.hashkey=lte:" +:+ pretty hi
  else "metadata.ownerReferences.hashkey." +:+ ownerKind +:+ "=" +:+ op +:+ ":"
       +:+ pretty lo +:+ ",metadata.ownerReferences.hashkey." +:+ ownerKind
       +:+ "=lte:" +:+ pretty hi.

(** The bounds invariant of the specification: the sentinel, or a pair with
    [lo ≤ hi]. *)
Definition bounds_ok (b : list Z) : Prop :=
  b = [-1; -1] ∨ ∃ lo hi, b = [lo; hi] ∧ lo ≤ hi.

(** A payload [setBounds] can index: a [[]int64] of length at least two. *)
Definition well_formed_signal (signal : Signal) : Prop :=
  ∃ s, signal = SigInt64s s ∧ (2 ≤ length s)%nat.

(** A payload that is a pair with [lo ≤ hi]. *)
Definition ordered_signal (signal : Signal) : Prop :=
  ∃ lo hi, signal = SigInt64s [lo; hi] ∧ lo ≤ hi.

Definition ordered_case (c : HandlerCase) : Prop :=
  match c with
  | CaseReset (Some signal) => ordered_signal signal
  | _ => True
  end.

Definition ordered_input (i : Input) : Prop :=
  match i with
  | InReset (Some signal) => ordered_signal signal
  | _ => True
  end.

Section Vocabulary.
Context {S : Type} `{!Store S}.

(** The events the handler counts: those it neither drops for their type
    nor for want of metadata. *)
Definition counted (r : Reflector S) (event : Event) : bool :=
  negb (type_mismatch (expectedType r) (dynType (Object_ event)))
  && bool_decide (is_Some (objectMeta (Object_ event))).

Definition events_counted (r : Reflector S) (events : list Event) : Z :=
  Z.of_nat (length (List.filter (counted r) events)).

(** The fields of the reflector that handling an event never writes. *)
Definition same_config (r r' : Reflector S) : Prop :=
  expectedType r' = expectedType r ∧ resetCh r' = resetCh r
  ∧ bounds r' = bounds r.

(** A computation that leaves [bounds] as it finds them. *)
Definition keeps_bounds {A} (c : M S A) : Prop :=
  ∀ w, match c w with
       | Done (_, w') => bounds (refl w') = bounds (refl w)
       | Panic _ => True
       end.

(** A computation that keeps the bounds invariant. *)
Definition ok_bounds {A} (c : M S A) : Prop :=
  ∀ w, bounds_ok (bounds (refl w)) →
       match c w with
       | Done (_, w') => bounds_ok (bounds (refl w'))
       | Panic _ => True
       end.

Definition bounds_inv (m : Machine S) : Prop :=
  bounds_ok (bounds (refl (world m))).

(** Inputs given one after the other to a running reflector. *)
Definition Run_steps (fuel : nat) (s : option (RunState S)) (inputs : list Input)
    : option (RunState S) :=
  foldl (λ s i, s ≫= λ s, Run_step fuel s i) s inputs.

End Vocabulary.

(** *** The objects and inputs of the scenarios *)

Definition pod (name version : string) : Object :=
  {| dynType := "*v1.Pod";
     objectMeta := Some {| Name := name; ResourceVersion := version |} |}.

Definition service (name version : string) : Object :=
  {| dynType := "*v1.Service";
     objectMeta := Some {| Name := name; ResourceVersion := version |} |}.

Definition status : Object :=
  {| dynType := "*v1.Status"; objectMeta := None |}.

Definition listed (items : list Object) (version : string) : Input :=
  InListDone {| listResourceVersion := inl version; listItems := inl items |} None.

(** List [A@1, B@2] at version 5, then Modified B@6, Added C@7,
    Deleted A@8. *)
Definition cold_start_inputs : list Input :=
  [ listed [pod "A" "1"; pod "B" "2"] "5";
    InWatchOpened;
    InEvent {| Type_ := Modified; Object_ := pod "B" "6" |};
    InEvent {| Type_ := Added; Object_ := pod "C" "7" |};
    InEvent {| Type_ := Deleted; Object_ := pod "A" "8" |} ].

(** The reset channel delivers [0, 1000], the list comes back empty at
    version 5 and the watch opens. *)
Definition reset_inputs : list Input :=
  [ InReset (Some (SigInt64s [0; 1000])); listed [] "5"; InWatchOpened ].

(** After that the reset channel delivers [1000, 2000]: the call returns,
    Run calls ListAndWatch again, the list comes back empty at version 9
    and the watch opens. *)
Definition reset_twice_inputs : list Input :=
  reset_inputs
  ++ [ InReset (Some (SigInt64s [1000; 2000])); listed [] "9"; InWatchOpened ].

Definition pod_reflector : Reflector (gmap string Object) :=
  NewNamedReflector "pods" (Some "*v1.Pod") ∅ 0.

Definition sharded_reflector : Reflector (gmap string Object) :=
  NewReflectorWithReset "pods" (Some "*v1.Pod") ∅ 0 "".

Definition connection_refused : GoError :=
  url_Error (net_OpError (syscall_Errno ECONNREFUSED)).

(** A refused connection as the transport reports it: the errno comes from
    the connect system call inside an *os.SyscallError. *)
Definition refused_syscall_error : GoError :=
  url_Error (net_OpError (os_SyscallError (syscall_Errno ECONNREFUSED))).

(** The error at the end of the chain of a transport error: *url.Error,
    *net.OpError and *os.SyscallError each wrap the error they carry. *)
Fixpoint cause (err : GoError) : GoError :=
  match err with
  | url_Error e | net_OpError e | os_SyscallError e => cause e
  | _ => err
  end.

(** Connection refused in the words of the specification: a transport error
    that signals ECONNREFUSED. *)
Definition spec_connection_refused (err : GoError) : bool :=
  match cause err with
  | syscall_Errno errno => errno =? ECONNREFUSED
  | _ => false
  end.

Definition exited (id name : string) (created : Z) : Kubelet.ContainerStatus :=
  {| Kubelet.ID := {| Kubelet.ContainerID_Type := "docker";
                      Kubelet.ContainerID_ID := id |};
     Kubelet.Name := name;
     Kubelet.State := "exited";
     Kubelet.CreatedAt := created |}.

Definition two_exited : Kubelet.PodStatus :=
  {| Kubelet.ContainerStatuses := [exited "c1" "app" 10; exited "c2" "app" 20] |}.

Definition ContainerID_String (c : Kubelet.ContainerID) : string :=
  Kubelet.ContainerID_Type c +:+ "://" +:+ Kubelet.ContainerID_ID c.

(** ** Vocabulary of the further properties *)

Module FailingResync.
Import Cache.

(** A keyed store whose [Resync] fails: the incremental calls and [Replace]
    are those of the keyed store above. *)
Record store := { content : gmap string Object }.

Definition errResync : GoError := errors_New "resync failed".

Definition on_content
    (f : gmap string Object → option GoError * gmap string Object) (s : store)
    : option GoError * store :=
  let '(err, c) := f (content s) in (err, {| content := c |}).

#[global] Instance failing_resync_store : Store store := {|
  store_Add obj := on_content (KeyedStore.put obj);
  store_Update obj := on_content (KeyedStore.put obj);
  store_Delete obj := on_content (KeyedStore.remove obj);
  store_Replace items rv := on_content (KeyedStore.replace items rv);
  store_Resync s := (Some errResync, s);
|}.

End FailingResync.

(** The store call the helper makes for an event of the given type. *)
Definition store_call_of (t : EventType) (obj : Object) : option StoreCall :=
  match t with
  | Added => Some (CallAdd obj)
  | Modified => Some (CallUpdate obj)
  | Deleted => Some (CallDelete obj)
  | _ => None
  end.

(** The resource version an event carries. *)
Definition event_version (event : Event) : string :=
  from_option ResourceVersion "" (objectMeta (Object_ event)).

(** What the handler of events may do besides stopping the watch: the three
    incremental store calls, and reports to the error handler. *)
Definition quiet (e : Effect) : bool :=
  match e with
  | EStore (CallAdd _ | CallUpdate _ | CallDelete _) | EHandleError _ => true
  | _ => false
  end.

(** The blocking points after the list: the watch phase. *)
Definition in_watch_phase (p : Pc) : bool :=
  match p with
  | AtWatch _ | AtSleep _ | AtHandler _ _ => true
  | _ => false
  end.

(** A list that fails before the store is called. *)
Definition list_failed (list : ListResult) (err : option GoError) : Prop :=
  is_Some err
  ∨ (∃ e, listResourceVersion list = inr e)
  ∨ (∃ e, listItems list = inr e).

(** The options of a watch request: from the given version, with the
    timeout drawn, without bookmarks. *)
Definition watch_options (resourceVersion : string) (timeoutSeconds : Z)
    (fieldSelector : string) : ListOptions :=
  {| optResourceVersion := resourceVersion;
     TimeoutSeconds := Some timeoutSeconds;
     AllowWatchBookmarks := false;
     FieldSelector := fieldSelector |}.

Definition is_reset_signal (i : Input) : bool :=
  match i with
  | InReset (Some _) => true
  | _ => false
  end.

Section FurtherVocabulary.
Context {S : Type} `{!Store S}.

(** The resource version the handler holds after a run of events: that of
    the last event it counted. *)
Definition last_version (r : Reflector S) (resourceVersion : string)
    (events : list Event) : string :=
  foldl (λ rv ev, if counted r ev then event_version ev else rv)
    resourceVersion events.

(** A computation whose effects all satisfy [P]. *)
Definition emits (P : Effect → bool) {A} (c : M S A) : Prop :=
  ∀ w, match c w with
       | Done (_, w') => ∃ new, trace w' = new ++ trace w ∧ forallb P new = true
       | Panic _ => True
       end.

(** The selector of a reflector: none without a reset channel, else the one
    of its bounds. *)
Definition selector_of (r : Reflector S) : string :=
  if resetCh r
  then match bounds r with
       | lo :: hi :: _ => spec_selector (ownerKind r) lo hi
       | _ => ""
       end
  else "".

Definition same_bounds (m m' : Machine S) : Prop :=
  bounds (refl (world m')) = bounds (refl (world m)).

End FurtherVocabulary.

(** [a] was created no earlier than [b]. *)
Definition newer_or_equal (a b : Kubelet.ContainerStatus) : Prop :=
  Kubelet.CreatedAt b ≤ Kubelet.CreatedAt a.

(** The containers the deletor considers: exited, and of the name of the
    matched container when there is one. *)
Definition selectable (ContainerStateExited : string)
    (matched : option Kubelet.ContainerStatus) (c : Kubelet.ContainerStatus)
    : bool :=
  String.eqb (Kubelet.State c) ContainerStateExited
  && match matched with
     | None => true
     | Some m => String.eqb (Kubelet.Name m) (Kubelet.Name c)
     end.

(** *** Machines of the scenarios *)

(** A reflector of pods waiting for its list, watching from version 5, and
    backing off after a refused connection. *)
Definition listing_pods : Machine (gmap string Object) :=
  ListAndWatch (boot pod_reflector (λ _, 300)).

Definition watching_pods : Machine (gmap string Object) :=
  run listing_pods [listed [pod "A" "1"] "5"; InWatchOpened].

Definition backing_off : Machine (gmap string Object) :=
  step (run listing_pods [listed [pod "A" "1"] "5"])
    (InWatchFailed connection_refused).

(** A sharded reflector waiting for its bounds, and watching with the
    bounds [0, 1000]. *)
Definition awaiting_bounds : Machine (gmap string Object) :=
  ListAndWatch (boot sharded_reflector (λ _, 300)).

Definition watching_shard : Machine (gmap string Object) :=
  run awaiting_bounds reset_inputs.

(** A reflector that resyncs every 30 seconds into a store whose Resync
    fails, watching from version 5. *)
Definition resyncing : Machine FailingResync.store :=
  run (ListAndWatch
         (boot (NewNamedReflector "pods" None
                  {| FailingResync.content := ∅ |} 30000000000)
            (λ _, 300)))
    [listed [] "5"; InWatchOpened].

(** * Proofs *)

Ltac run_m :=
  unfold mbind, mret, M_bind, M_ret, bind, ret, get, modify, emit, lift,
    slice_index in *;
  cbv beta in *.

Lemma append_nil_r (s : string) : s +:+ "" = s.
Proof.
  induction s as [|a s IH]; [reflexivity|].
  change (String a (s +:+ "") = String a s). by rewrite IH.
Qed.

Lemma length_zero_iff (s : string) :
  (String.length s =? 0)%nat = bool_decide (s = "").
Proof. by destruct s. Qed.

Lemma wrap_int64_small (z : Z) : - 2 ^ 63 ≤ z < 2 ^ 63 → wrap_int64 z = z.
Proof. intros. unfold wrap_int64. rewrite Z.mod_small; lia. Qed.

(** [fmt.Sprintf] on the format of the plain selector, checked on the
    bounds of the specification's reset scenario. *)
Example Sprintf_selector :
  Sprintf "metadata.hashkey=%s:%v,metadata.hashkey=lte:%+v"
    [FStr "gt"; FInt64 1000; FInt64 2000]
  = "metadata.hashkey=gt:1000,metadata.hashkey=lte:2000".
Proof. reflexivity. Qed.

Section ShardBounds.
Context {S : Type} `{!Store S}.

(** C7.  For every bounds pair [lo, hi], createHashkeyListOptions renders
    the selector of the specification: the operator is gte exactly when lo
    is 0 and gt otherwise, the field is metadata.hashkey for an empty
    ownerKind and metadata.ownerReferences.hashkey.<ownerKind> otherwise, and
    the upper bound is rendered with lte.  appendFieldSelector joins it to a
    non-empty selector with one comma and replaces an empty one. *)
Theorem createHashkeyListOptions_renders (w : World S) (lo hi : Z) :
  bounds (refl w) = [lo; hi] →
  ∃ sel,
    createHashkeyListOptions w = Done (sel, w)
    ∧ FieldSelector sel = spec_selector (ownerKind (refl w)) lo hi
    ∧ ∀ target,
        FieldSelector (appendFieldSelector target sel) =
          if bool_decide (FieldSelector target = "")
          then FieldSelector sel
          else FieldSelector target +:+ "," +:+ FieldSelector sel.
Proof.
  intros Hb. unfold createHashkeyListOptions, spec_selector. run_m.
  rewrite Hb. cbn.
  destruct (String.eqb_spec (ownerKind (refl w)) "") as [E|E];
    [rewrite bool_decide_eq_true_2 by done
    |rewrite bool_decide_eq_false_2 by done];
    cbn;
    (destruct (Z.eqb_spec lo 0);
      [rewrite bool_decide_eq_true_2 by done
      |rewrite bool_decide_eq_false_2 by done]);
    rewrite append_nil_r;
    (eexists; split; [reflexivity|split; [reflexivity|]]);
    intros target; unfold appendFieldSelector; cbn [FieldSelector];
    rewrite length_zero_iff; reflexivity.
Qed.

(** C10.  setBounds panics on every signal that is not a []int64 of length
    at least two: the failed assertion leaves a nil slice, and indexing
    elements 0 and 1 goes out of range. *)
Theorem setBounds_panics (w : World S) (signal : Signal) :
  ¬ well_formed_signal signal → ∃ v, setBounds signal w = Panic v.
Proof.
  intros Hbad. unfold setBounds. run_m.
  destruct (bounds (refl w) !! 0%nat); [|eauto].
  destruct (bounds (refl w) !! 1%nat); [|eauto].
  destruct signal as [|s|ty]; cbn; eauto.
  destruct s as [|x [|y s]]; cbn; eauto.
  exfalso. apply Hbad. eexists. split; [done|]. cbn. lia.
Qed.

(** On a payload it can index, setBounds stores the slice as it is. *)
Lemma setBounds_stores (w : World S) (s : list Z) :
  (2 ≤ length (bounds (refl w)))%nat → (2 ≤ length s)%nat →
  setBounds (SigInt64s s) w =
    Done (tt, {| refl := with_bounds s (refl w); trace := trace w |}).
Proof.
  intros Hb Hs. unfold setBounds. run_m.
  destruct (bounds (refl w)) as [|? [|? ?]]; cbn in Hb; try lia.
  destruct s as [|? [|? ?]]; cbn in Hs; try lia. reflexivity.
Qed.

Lemma isInitBounds_pure (w : World S) (lo hi : Z) (rest : list Z) :
  bounds (refl w) = lo :: hi :: rest →
  isInitBounds w = Done ((lo =? -1) && (hi =? -1), w).
Proof.
  intros Hb. unfold isInitBounds. run_m. rewrite Hb. cbn.
  destruct (lo =? -1); reflexivity.
Qed.

Lemma createHashkeyListOptions_total (w : World S) :
  (2 ≤ length (bounds (refl w)))%nat →
  ∃ sel, createHashkeyListOptions w = Done (sel, w).
Proof.
  intros Hb. unfold createHashkeyListOptions. run_m.
  destruct (bounds (refl w)) as [|lo [|hi ?]]; cbn in Hb; try lia. cbn.
  destruct (negb _); eauto.
Qed.

End ShardBounds.

Lemma createHashkeyListOptions_renders_witness :
  let w := {| refl := with_bounds [0; 1000] sharded_reflector; trace := [] |} in
  bounds (refl w) = [0; 1000]
  ∧ ∃ sel,
      createHashkeyListOptions w = Done (sel, w)
      ∧ FieldSelector sel = "metadata.hashkey=gte:0,metadata.hashkey=lte:1000"
      ∧ ∀ target,
          FieldSelector (appendFieldSelector target sel) =
            if bool_decide (FieldSelector target = "")
            then FieldSelector sel
            else FieldSelector target +:+ "," +:+ FieldSelector sel.
Proof.
  split; [reflexivity|].
  apply (createHashkeyListOptions_renders
           {| refl := with_bounds [0; 1000] sharded_reflector; trace := [] |}
           0 1000).
  reflexivity.
Defined.

Lemma setBounds_panics_witness :
  ¬ well_formed_signal SigNil
  ∧ ∃ v, setBounds SigNil {| refl := sharded_reflector; trace := [] |} = Panic v.
Proof.
  assert (¬ well_formed_signal SigNil) as H
    by (intros (s & Hs & _); discriminate Hs).
  split; [exact H|].
  apply (setBounds_panics {| refl := sharded_reflector; trace := [] |} SigNil H).
Defined.

Section EventDispatcher.
Context {S : Type} `{!Store S}.

Lemma store_call_config (c : StoreCall) (w : World S) :
  ∃ err w', store_call c w = Done (err, w') ∧ same_config (refl w) (refl w').
Proof.
  unfold store_call.
  destruct c; cbn;
    match goal with |- context [let '(_, _) := ?x in _] => destruct x end;
    do 2 eexists; (split; [reflexivity|]); done.
Qed.

(** C2.  For every watch event whose object's dynamic type differs from a
    non-nil expectedType, the helper leaves the reflector and its store as
    they are, calls no store method and returns the event count and the
    resource version unchanged.  An event other than an Error event returns
    no error and the mismatch goes to the error handler only; an Error
    event returns the API error made from its object, whatever its type. *)
Theorem watchHandlerHelper_type_filter (w : World S) (event : Event)
    (resourceVersion : string) (eventCount : Z) (e : GoType) :
  expectedType (refl w) = Some e →
  e ≠ dynType (Object_ event) →
  ∃ err w',
    watchHandlerHelper event resourceVersion eventCount w
      = Done ((err, eventCount, resourceVersion), w')
    ∧ refl w' = refl w
    ∧ List.filter is_store_call (trace w') = List.filter is_store_call (trace w)
    ∧ (Type_ event ≠ Error →
       err = None ∧ ∃ logged, trace w' = EHandleError logged :: trace w)
    ∧ (Type_ event = Error → err = Some (FromObject (Object_ event))).
Proof.
  intros He Hne. unfold watchHandlerHelper, HandleError. run_m.
  assert (type_mismatch (expectedType (refl w)) (dynType (Object_ event)) = true)
    as Hm.
  { rewrite He. cbn. by destruct (String.eqb_spec e (dynType (Object_ event))). }
  destruct (Type_ event); cbv beta; rewrite ?Hm;
    do 2 eexists; (split; [reflexivity|]); cbn; repeat split; eauto; done.
Qed.

(** What the helper does to the counter on an event that is not an Error
    event. *)
Lemma watchHandlerHelper_counts (w : World S) (event : Event)
    (resourceVersion : string) (eventCount : Z) :
  Type_ event ≠ Error →
  ∃ w' resourceVersion',
    watchHandlerHelper event resourceVersion eventCount w
      = Done ((None,
               if counted (refl w) event then wrap_int64 (eventCount + 1)
               else eventCount,
               resourceVersion'), w')
    ∧ same_config (refl w) (refl w').
Proof.
  intros Hty.
  unfold watchHandlerHelper, counted, HandleError, setLastSyncResourceVersion.
  run_m.
  destruct (Type_ event) eqn:Hev; try done; cbv beta;
    (destruct (type_mismatch (expectedType (refl w)) (dynType (Object_ event)));
      cbn [negb andb]; [do 2 eexists; (split; [reflexivity|done])|]);
    (destruct (objectMeta (Object_ event)) as [meta|];
      [rewrite bool_decide_eq_true_2 by eauto
      |rewrite bool_decide_eq_false_2 by (intros [? ?]; done);
       do 2 eexists; (split; [reflexivity|done])]).
  1-3: match goal with |- context [store_call ?c ?w] =>
         destruct (store_call_config c w) as (err & w1 & -> & Hc) end;
       destruct err; cbn; do 2 eexists; (split; [reflexivity|]); done.
  all: cbn; do 2 eexists; (split; [reflexivity|]); done.
Qed.

Lemma counted_config (r r' : Reflector S) (events : list Event) :
  same_config r r' → events_counted r' events = events_counted r events.
Proof.
  intros (He & _). unfold events_counted. f_equal. f_equal.
  apply List.filter_ext. intros ev. unfold counted. by rewrite He.
Qed.

(** The loop on a run of events followed by the close of the channel. *)
Lemma watchHandler_loop_events (events : list Event) (d : Z) :
  ∀ (w : World S) (resourceVersion : string) (eventCount : Z),
    Forall (λ ev, Type_ ev ≠ Error) events →
    0 ≤ eventCount → eventCount + Z.of_nat (length events) < 2 ^ 63 →
    ∃ w' resourceVersion',
      watchHandler_loop (map CaseEvent events ++ [CaseClosed d])
        resourceVersion eventCount w
      = Done (inr (watchHandler_closed d
                     (eventCount + events_counted (refl w) events),
                   resourceVersion'), w').
Proof.
  induction events as [|ev events IH]; intros w rv n Hev Hn Hlen.
  - cbn. unfold events_counted. cbn. rewrite Z.add_0_r. run_m. cbn.
    do 2 eexists; reflexivity.
  - apply Forall_cons in Hev as [Hty Hev].
    cbn [map app watchHandler_loop].
    destruct (watchHandlerHelper_counts w ev rv n Hty) as (w1 & rv1 & Hh & Hc).
    unfold watchHandler_select at 1.
    run_m. cbn [case_enabled]. rewrite Hh.
    cbn [length] in Hlen.
    set (n1 := if counted (refl w) ev then wrap_int64 (n + 1) else n).
    assert (n1 = n + (if counted (refl w) ev then 1 else 0)) as Hn1.
    { subst n1. destruct (counted (refl w) ev); [rewrite wrap_int64_small|]; lia. }
    assert (n + events_counted (refl w) (ev :: events)
            = n1 + events_counted (refl w1) events) as ->.
    { rewrite (counted_config _ _ _ Hc), Hn1. unfold events_counted.
      cbn [List.filter]. destruct (counted (refl w) ev); cbn [length]; lia. }
    apply IH; [done| |]; destruct (counted (refl w) ev); lia.
Qed.

Lemma watchHandler_closed_iff (d n : Z) :
  watchHandler_closed d n = Some errVeryShortWatch ↔ d < Second ∧ n = 0.
Proof.
  unfold watchHandler_closed.
  destruct (Z.ltb_spec d (1 * Second)), (Z.eqb_spec n 0); cbn;
    (split; [intros ?|intros [? ?]]); first [done | lia].
Qed.

Lemma watchHandler_closed_nil (d n : Z) :
  watchHandler_closed d n = None ↔ ¬ (d < Second ∧ n = 0).
Proof.
  unfold watchHandler_closed.
  destruct (Z.ltb_spec d (1 * Second)), (Z.eqb_spec n 0); cbn;
    (split; [intros ?|intros Hn]); first [done | lia].
Qed.

(** C5.  When the result channel closes after a run of events, watchHandler
    returns the very-short-watch error if and only if the watch lasted
    strictly under one second and the handler counted no event; the events
    it counts are those it applied, so an event dropped for its type or for
    want of metadata is received but not counted.  In every other such case
    it returns nil. *)
Theorem watchHandler_very_short_watch (w : World S) (events : list Event)
    (resourceVersion : string) (watchDuration : Z) :
  Forall (λ ev, Type_ ev ≠ Error) events →
  Z.of_nat (length events) < 2 ^ 63 →
  ∃ err resourceVersion' w',
    watchHandler (map CaseEvent events ++ [CaseClosed watchDuration])
      resourceVersion w
      = Done (inr (err, resourceVersion'), w')
    ∧ (err = Some errVeryShortWatch
       ↔ watchDuration < Second ∧ events_counted (refl w) events = 0)
    ∧ (err = None
       ↔ ¬ (watchDuration < Second ∧ events_counted (refl w) events = 0)).
Proof.
  intros Hev Hlen. unfold watchHandler.
  destruct (watchHandler_loop_events events watchDuration w resourceVersion 0 Hev)
    as (w' & rv' & ->); [lia|lia|].
  do 3 eexists. split; [reflexivity|]. rewrite Z.add_0_l.
  split; [apply watchHandler_closed_iff|apply watchHandler_closed_nil].
Qed.

End EventDispatcher.

Lemma watchHandlerHelper_type_filter_witness :
  let w := {| refl := pod_reflector; trace := [] |} in
  let event := {| Type_ := Added; Object_ := service "S" "3" |} in
  expectedType (refl w) = Some "*v1.Pod"
  ∧ "*v1.Pod" ≠ dynType (Object_ event)
  ∧ ∃ err w',
      watchHandlerHelper event "5" 0 w = Done ((err, 0, "5"), w')
      ∧ refl w' = refl w
      ∧ List.filter is_store_call (trace w') = List.filter is_store_call (trace w)
      ∧ (Type_ event ≠ Error →
         err = None ∧ ∃ logged, trace w' = EHandleError logged :: trace w)
      ∧ (Type_ event = Error → err = Some (FromObject (Object_ event))).
Proof.
  split; [reflexivity|]. split; [discriminate|].
  apply (watchHandlerHelper_type_filter
           {| refl := pod_reflector; trace := [] |}
           {| Type_ := Added; Object_ := service "S" "3" |} "5" 0 "*v1.Pod");
    [reflexivity|discriminate].
Defined.

(** An Error event carrying a Status, to a reflector that expects pods: the
    types differ and the helper returns an error to its caller. *)
Lemma type_filter_error_event :
  let w := {| refl := pod_reflector; trace := [] |} in
  let event := {| Type_ := Error; Object_ := status |} in
  expectedType (refl w) = Some "*v1.Pod"
  ∧ "*v1.Pod" ≠ dynType (Object_ event)
  ∧ ∃ err, watchHandlerHelper event "5" 0 w = Done ((Some err, 0, "5"), w).
Proof.
  split; [reflexivity|]. split; [discriminate|].
  eexists. reflexivity.
Qed.

Lemma watchHandler_very_short_watch_witness :
  let w := {| refl := pod_reflector; trace := [] |} in
  let events := [ {| Type_ := Added; Object_ := pod "A" "6" |} ] in
  Forall (λ ev, Type_ ev ≠ Error) events
  ∧ Z.of_nat (length events) < 2 ^ 63
  ∧ ∃ err resourceVersion' w',
      watchHandler (map CaseEvent events ++ [CaseClosed 400000000]) "5" w
        = Done (inr (err, resourceVersion'), w')
      ∧ (err = Some errVeryShortWatch
         ↔ 400000000 < Second ∧ events_counted (refl w) events = 0)
      ∧ (err = None
         ↔ ¬ (400000000 < Second ∧ events_counted (refl w) events = 0)).
Proof.
  assert (Forall (λ ev, Type_ ev ≠ Error)
            [ {| Type_ := Added; Object_ := pod "A" "6" |} ]) as Hev
    by (repeat constructor; discriminate).
  split; [exact Hev|]. split; [reflexivity|].
  apply (watchHandler_very_short_watch
           {| refl := pod_reflector; trace := [] |}
           [ {| Type_ := Added; Object_ := pod "A" "6" |} ] "5" 400000000 Hev).
  reflexivity.
Defined.

(** A watch that delivers one event, a service to a reflector that expects
    pods, and closes after 400 ms: one event was received and the handler
    returns the very-short-watch error all the same. *)
Lemma very_short_watch_after_dropped_event :
  let w := {| refl := pod_reflector; trace := [] |} in
  let events := [ {| Type_ := Added; Object_ := service "S" "6" |} ] in
  (∃ w', watchHandler (map CaseEvent events ++ [CaseClosed 400000000]) "5" w
         = Done (inr (Some errVeryShortWatch, "5"), w'))
  ∧ ¬ (400000000 < Second ∧ length events = 0%nat).
Proof.
  split; [eexists; reflexivity|]. intros [_ H]. discriminate H.
Qed.

Section WatchLoop.
Context {S : Type} `{!Store S}.

(** With the stop channel open, the head of the watch loop sends a watch
    request from the given resource version. *)
Lemma watch_loop_opens (m : Machine S) (rv : string) :
  stopClosed m = false →
  (2 ≤ length (bounds (refl (world m))))%nat →
  ∃ options,
    pc (watch_loop rv m) = AtWatch rv
    ∧ world (watch_loop rv m) =
        {| refl := refl (world m); trace := EWatch options :: trace (world m) |}
    ∧ optResourceVersion options = rv.
Proof.
  intros Hs Hb. unfold watch_loop, exec. rewrite Hs. run_m. cbn.
  destruct (resetCh (refl (world m))).
  - destruct (createHashkeyListOptions_total (world m) Hb) as (sel & ->). cbn.
    eexists. split; [reflexivity|]. split; reflexivity.
  - cbn. eexists. split; [reflexivity|]. split; reflexivity.
Qed.

(** The three assertions of lines 363-365 recognise one error only: a
    *url.Error around a *net.OpError that holds the errno ECONNREFUSED
    itself. *)
Lemma isConnectionRefused_iff (err : GoError) :
  isConnectionRefused err = true ↔ err = connection_refused.
Proof.
  split; [|by intros ->].
  destruct err as [| | | | | | | |[| | | | | | | | |[| | | | | | | | | | |errno|]| | |]| | | |];
    try discriminate.
  cbn. intros ->%Z.eqb_eq. reflexivity.
Qed.

(** On the error the code takes for a refused connection the watch loop
    sleeps one second and does not return; it calls no list and leaves the
    reflector as it is, and when the sleep is over (the stop channel still
    open) it sends the watch again from the same resource version.  On
    every other error ListAndWatch returns nil. *)
Lemma watch_open_error (m : Machine S) (rv : string) (err : GoError) :
  pc m = AtWatch rv →
  let m' := step m (InWatchFailed err) in
  if isConnectionRefused err then
    pc m' = AtSleep rv
    ∧ head (trace (world m')) = Some (ESleep Second)
    ∧ List.filter is_list (trace (world m')) = List.filter is_list (trace (world m))
    ∧ refl (world m') = refl (world m)
    ∧ (stopClosed m = false →
       (2 ≤ length (bounds (refl (world m))))%nat →
       ∃ options,
         pc (step m' InSleepDone) = AtWatch rv
         ∧ world (step m' InSleepDone) =
             {| refl := refl (world m);
                trace := EWatch options :: trace (world m') |}
         ∧ optResourceVersion options = rv)
  else pc m' = Finished None.
Proof.
  intros Hpc m'. subst m'. unfold step. rewrite Hpc.
  unfold watch_failed.
  destruct (isConnectionRefused err) eqn:Hc.
  - destruct err; try discriminate Hc.
    unfold exec, HandleError. run_m. cbn.
    repeat split.
    intros Hs Hb.
    set (m1 := set_pc _ _).
    destruct (watch_loop_opens m1 rv Hs Hb) as (options & H1 & H2 & H3).
    exists options. split; [exact H1|]. split; [exact H2|exact H3].
  - unfold exec, HandleError, finish, exec. run_m.
    destruct err; cbn; reflexivity.
Qed.

(** C6.  listerWatcher.Watch fails with a refused connection that is not
    of the one shape the code recognises, such as the error the transport
    reports: a *url.Error around a *net.OpError around an *os.SyscallError
    that holds the errno ECONNREFUSED.  The assertion of line 365 expects
    the errno itself inside the *net.OpError and fails, so the loop does not
    sleep and sends no further watch: the error goes to the error handler
    and ListAndWatch returns nil at once. *)
Theorem watch_open_refused_returns (m : Machine S) (rv : string) (err : GoError) :
  pc m = AtWatch rv →
  spec_connection_refused err = true →
  err ≠ connection_refused →
  let m' := step m (InWatchFailed err) in
  isConnectionRefused err = false
  ∧ pc m' = Finished None
  ∧ refl (world m') = refl (world m)
  ∧ trace (world m')
      = ECancelClose
        :: EHandleError (fmt_Errorf_err "%s: Failed to watch %v: %v" err)
        :: trace (world m).
Proof.
  intros Hpc Hspec Hne m'. subst m'.
  assert (isConnectionRefused err = false) as Hc.
  { destruct (isConnectionRefused err) eqn:Hc; [|done].
    by apply isConnectionRefused_iff in Hc. }
  split; [exact Hc|].
  unfold step. rewrite Hpc. unfold watch_failed. rewrite Hc.
  destruct err; try discriminate Hspec; repeat split.
Qed.

(** C4.  The stop channel closes while ListAndWatch waits for the list
    helper: the func literal of the list returns nil, ListAndWatch goes on
    to start the resync worker, and only then returns nil at the head of
    the watch loop.  The store is not touched. *)
Theorem stop_during_list_starts_resync_worker (name : string)
    (ty : option GoType) (s : S) (resyncPeriod : Z) (rand : nat → Z) :
  let m0 := ListAndWatch (boot (NewNamedReflector name ty s resyncPeriod) rand) in
  let m := step m0 InStop in
  pc m0 = AtList
  ∧ pc m = Finished None
  ∧ trace (world m) = ECancelClose :: EGo ResyncWorker :: trace (world m0)
  ∧ store (refl (world m)) = s.
Proof. cbn. repeat split. Qed.

(** At the other two selects a closed stop channel makes ListAndWatch return
    nil with no goroutine started and the reflector as it was. *)
Lemma stop_at_bounds (m : Machine S) :
  pc m = AtBounds →
  pc (step m InStop) = Finished None ∧ world (step m InStop) = world m.
Proof. intros Hpc. unfold step. rewrite Hpc. done. Qed.

Lemma stop_at_handler (m : Machine S) (rv : string) (n : Z) :
  pc m = AtHandler rv n →
  pc (step m InStop) = Finished None
  ∧ refl (world (step m InStop)) = refl (world m)
  ∧ trace (world (step m InStop)) = ECancelClose :: EWatchStop :: trace (world m)
  ∧ stopClosed (step m InStop) = true.
Proof. intros Hpc. unfold step. rewrite Hpc. done. Qed.

(** In reset mode with bounds in place and the stop channel closed,
    ListAndWatch returns nil at once and changes nothing. *)
Lemma ListAndWatch_after_stop (m : Machine S) (lo hi : Z) (rest : list Z) :
  resetCh (refl (world m)) = true →
  bounds (refl (world m)) = lo :: hi :: rest →
  (lo =? -1) && (hi =? -1) = false →
  stopClosed m = true →
  pc (ListAndWatch m) = Finished None
  ∧ world (ListAndWatch m) = world m
  ∧ stopClosed (ListAndWatch m) = true.
Proof.
  intros Hr Hb Hinit Hs. unfold ListAndWatch, exec.
  cbn [world set_resync]. rewrite Hr, (isInitBounds_pure _ lo hi rest Hb), Hinit.
  cbn. rewrite Hs. cbn. destruct (world m). done.
Qed.

(** The same with the bounds still to come: the select of lines 212-221
    finds the stop channel closed and ListAndWatch returns nil at once. *)
Lemma ListAndWatch_stop_closed (m : Machine S) :
  resetCh (refl (world m)) = true →
  (2 ≤ length (bounds (refl (world m))))%nat →
  stopClosed m = true →
  pc (ListAndWatch m) = Finished None
  ∧ world (ListAndWatch m) = world m
  ∧ stopClosed (ListAndWatch m) = true.
Proof.
  intros Hr Hb Hs. unfold ListAndWatch, exec. cbn [world set_resync]. rewrite Hr.
  destruct (bounds (refl (world m))) as [|lo [|hi rest]] eqn:Hbd;
    cbn in Hb; try lia.
  rewrite (isInitBounds_pure _ lo hi rest Hbd). cbn. rewrite Hs.
  destruct (world m). done.
Qed.

(** So the loop of the reset mode in Run goes round for ever: no number of
    calls of ListAndWatch brings the func to a return or to a wait. *)
Lemma Run_func_spins (fuel : nat) (m : Machine S) (lo hi : Z) (rest : list Z) :
  resetCh (refl (world m)) = true →
  bounds (refl (world m)) = lo :: hi :: rest →
  (lo =? -1) && (hi =? -1) = false →
  stopClosed m = true →
  pc m = Finished None →
  Run_func fuel m = None.
Proof.
  revert m. induction fuel as [|fuel IH]; intros m Hr Hb Hinit Hs Hpc.
  - cbn. rewrite Hpc, Hr. done.
  - cbn [Run_func]. rewrite Hpc, Hr.
    destruct (ListAndWatch_after_stop m lo hi rest Hr Hb Hinit Hs) as (H1 & H2 & H3).
    apply IH; rewrite ?H2; done.
Qed.

(** Without a reset channel Run exits when the stop channel closes during
    the watch. *)
Lemma Run_exits_without_reset (fuel : nat) (m : Machine S) (rv : string) (n : Z) :
  resetCh (refl (world m)) = false →
  pc m = AtHandler rv n →
  ∃ m', Run_step fuel {| machine := m; runPc := InListAndWatch |} InStop
        = Some {| machine := m'; runPc := RunExited |}
        ∧ refl (world m') = refl (world m).
Proof.
  intros Hr Hpc. unfold Run_step. cbn [runPc machine].
  destruct (stop_at_handler m rv n Hpc) as (H1 & H2 & _ & H3).
  exists (step m InStop). split; [|exact H2].
  destruct fuel; cbn [Run_func]; rewrite H1, H2, Hr; unfold until_wait;
    rewrite H3; reflexivity.
Qed.

End WatchLoop.

(** C1.  Cold start: from an empty store, the list returns A@1 and B@2 at
    version 5 and the watch delivers Modified B@6, Added C@7, Deleted A@8.
    After ListAndWatch has processed them the store holds exactly B@6 and
    C@7, the last-sync resource version is 8, and the store was called with
    Replace, Update, Add and Delete in that order. *)
Theorem cold_start_end_to_end (name : string) (typed : bool) (resyncPeriod : Z)
    (rand : nat → Z) :
  let r := NewNamedReflector name (if typed then Some "*v1.Pod" else None)
             (∅ : gmap string Object) resyncPeriod in
  let m := run (ListAndWatch (boot r rand)) cold_start_inputs in
  store (refl (world m)) = {[ "B" := pod "B" "6"; "C" := pod "C" "7" ]}
  ∧ lastSyncResourceVersion (refl (world m)) = "8"
  ∧ pc m = AtHandler "8" 3
  ∧ List.filter is_store_call (trace (world m)) =
      [ EStore (CallDelete (pod "A" "8"));
        EStore (CallAdd (pod "C" "7"));
        EStore (CallUpdate (pod "B" "6"));
        EStore (CallReplace [pod "A" "1"; pod "B" "2"] "5") ].
Proof.
  destruct typed; cbn; repeat split; try reflexivity.
  all: vm_compute; reflexivity.
Qed.

Lemma watch_open_error_witness :
  let m := run (ListAndWatch (boot pod_reflector (λ _, 300)))
             [listed [pod "A" "1"] "5"] in
  let m' := step m (InWatchFailed connection_refused) in
  pc m = AtWatch "5"
  ∧ pc m' = AtSleep "5"
  ∧ head (trace (world m')) = Some (ESleep Second)
  ∧ List.filter is_list (trace (world m')) = List.filter is_list (trace (world m))
  ∧ refl (world m') = refl (world m)
  ∧ (stopClosed m = false →
     (2 ≤ length (bounds (refl (world m))))%nat →
     ∃ options,
       pc (step m' InSleepDone) = AtWatch "5"
       ∧ world (step m' InSleepDone) =
           {| refl := refl (world m);
              trace := EWatch options :: trace (world m') |}
       ∧ optResourceVersion options = "5").
Proof.
  split; [reflexivity|].
  apply (watch_open_error
           (run (ListAndWatch (boot pod_reflector (λ _, 300)))
              [listed [pod "A" "1"] "5"])
           "5" connection_refused).
  reflexivity.
Defined.

Lemma watch_open_refused_returns_witness :
  pc (run (ListAndWatch (boot pod_reflector (λ _, 300))) [listed [pod "A" "1"] "5"])
    = AtWatch "5"
  ∧ spec_connection_refused refused_syscall_error = true
  ∧ refused_syscall_error ≠ connection_refused
  ∧ let err := refused_syscall_error in
    let m := run (ListAndWatch (boot pod_reflector (λ _, 300)))
               [listed [pod "A" "1"] "5"] in
    let m' := step m (InWatchFailed err) in
    isConnectionRefused err = false
    ∧ pc m' = Finished None
    ∧ refl (world m') = refl (world m)
    ∧ trace (world m')
        = ECancelClose
          :: EHandleError (fmt_Errorf_err "%s: Failed to watch %v: %v" err)
          :: trace (world m).
Proof.
  assert (pc (run (ListAndWatch (boot pod_reflector (λ _, 300)))
                [listed [pod "A" "1"] "5"]) = AtWatch "5") as H1
    by (vm_compute; reflexivity).
  assert (spec_connection_refused refused_syscall_error = true) as H2
    by reflexivity.
  assert (refused_syscall_error ≠ connection_refused) as H3 by discriminate.
  split; [exact H1|]. split; [exact H2|]. split; [exact H3|].
  exact (watch_open_refused_returns
           (run (ListAndWatch (boot pod_reflector (λ _, 300)))
              [listed [pod "A" "1"] "5"]) "5" refused_syscall_error H1 H2 H3).
Defined.

(** C3.  A reflector with a reset channel is given its bounds, lists and
    watches; then the stop channel closes.  The handler returns, ListAndWatch
    returns nil, and the for loop of Run calls it again and again: with any
    number of calls allowed, Run neither exits nor comes to a wait. *)
Theorem Run_with_reset_spins_after_stop (fuel : nat) (rand : nat → Z) :
  ∃ s,
    Run_steps 1 (Run 1 (boot sharded_reflector rand)) reset_inputs = Some s
    ∧ runPc s = InListAndWatch
    ∧ pc (machine s) = AtHandler "5" 0
    ∧ stopClosed (machine s) = false
    ∧ bounds (refl (world (machine s))) = [0; 1000]
    ∧ Run_step fuel s InStop = None.
Proof.
  eexists. split; [vm_compute; reflexivity|].
  repeat (split; [reflexivity|]).
  unfold Run_step. cbn [runPc machine].
  apply (Run_func_spins fuel _ 0 1000 []); vm_compute; reflexivity.
Qed.

Section BoundsInvariant.
Context {S : Type} `{!Store S}.

Lemma keeps_ret {A} (a : A) : keeps_bounds (mret a : M S A).
Proof. intros w. done. Qed.

Lemma keeps_bind {A B} (c : M S A) (k : A → M S B) :
  keeps_bounds c → (∀ a, keeps_bounds (k a)) → keeps_bounds (c ≫= k).
Proof.
  intros Hc Hk w. run_m. specialize (Hc w). destruct (c w) as [[a w1]|]; [|done].
  specialize (Hk a w1). destruct (k a w1) as [[b w2]|]; [|done]. congruence.
Qed.

Lemma keeps_get : keeps_bounds (get : M S _).
Proof. intros w. done. Qed.

Lemma keeps_emit (e : Effect) : keeps_bounds (emit e : M S _).
Proof. intros w. done. Qed.

Lemma keeps_lift {A} (o : Outcome A) : keeps_bounds (lift o : M S A).
Proof. intros w. unfold lift. by destruct o. Qed.

Lemma keeps_store_call (c : StoreCall) : keeps_bounds (store_call c).
Proof.
  intros w. unfold store_call.
  destruct c; cbn;
    match goal with |- context [let '(_, _) := ?x in _] => destruct x end; done.
Qed.

Lemma keeps_setLastSyncResourceVersion (v : string) :
  keeps_bounds (setLastSyncResourceVersion v : M S _).
Proof. intros w. done. Qed.

Lemma keeps_HandleError (e : GoError) : keeps_bounds (HandleError e : M S _).
Proof. intros w. done. Qed.

Ltac keeps :=
  repeat (intros;
          first [ apply keeps_ret | apply keeps_get | apply keeps_emit
                | apply keeps_lift | apply keeps_store_call
                | apply keeps_setLastSyncResourceVersion
                | apply keeps_HandleError
                | apply keeps_bind
                | case_match ]).

Lemma keeps_isInitBounds : keeps_bounds (isInitBounds : M S _).
Proof. unfold isInitBounds. keeps. Qed.

Lemma keeps_createHashkeyListOptions :
  keeps_bounds (createHashkeyListOptions : M S _).
Proof. unfold createHashkeyListOptions. keeps. Qed.

Lemma keeps_syncWith items rv : keeps_bounds (syncWith items rv : M S _).
Proof. unfold syncWith. keeps. Qed.

Lemma keeps_watchHandlerHelper event rv n :
  keeps_bounds (watchHandlerHelper event rv n : M S _).
Proof. unfold watchHandlerHelper. keeps. Qed.

Lemma keeps_ok {A} (c : M S A) : keeps_bounds c → ok_bounds c.
Proof.
  intros Hc w Hw. specialize (Hc w). destruct (c w) as [[a w']|]; [|done].
  by rewrite Hc.
Qed.

Lemma ok_bind {A B} (c : M S A) (k : A → M S B) :
  ok_bounds c → (∀ a, ok_bounds (k a)) → ok_bounds (c ≫= k).
Proof.
  intros Hc Hk w Hw. run_m. specialize (Hc w Hw).
  destruct (c w) as [[a w1]|]; [|done]. exact (Hk a w1 Hc).
Qed.

(** The one writer of [bounds] after construction: an ordered pair keeps
    the invariant. *)
Lemma ok_setBounds (signal : Signal) :
  ordered_signal signal → ok_bounds (setBounds signal : M S _).
Proof.
  intros (lo & hi & -> & Hle) w Hw. unfold setBounds. run_m.
  destruct Hw as [->|(?&?&->&?)]; cbn; right; eauto.
Qed.

Lemma ok_watchHandler_select (c : HandlerCase) (rv : string) (n : Z) :
  ordered_case c → ok_bounds (watchHandler_select c rv n : M S _).
Proof.
  intros Hc. destruct c as [|[signal|]|err|event|d]; cbn [watchHandler_select].
  - apply keeps_ok. keeps.
  - apply ok_bind; [by apply ok_setBounds|]. intros _. apply keeps_ok. keeps.
  - apply keeps_ok. keeps.
  - apply keeps_ok. keeps.
  - apply keeps_ok. apply keeps_bind; [apply keeps_watchHandlerHelper|].
    intros [[? ?] ?]. keeps.
  - apply keeps_ok. keeps.
Qed.

Lemma exec_inv {A} (m : Machine S) (c : M S A) (k : A → Machine S → Machine S) :
  ok_bounds c → (∀ a m, bounds_inv m → bounds_inv (k a m)) →
  bounds_inv m → bounds_inv (exec m c k).
Proof.
  intros Hc Hk Hm. unfold exec. specialize (Hc (world m) Hm).
  destruct (c (world m)) as [[a w]|]; [|exact Hm]. apply Hk. exact Hc.
Qed.

Lemma finish_inv err (m : Machine S) : bounds_inv m → bounds_inv (finish err m).
Proof.
  unfold finish. intros Hm. apply exec_inv; [apply keeps_ok; keeps|done|done].
Qed.

Lemma watch_loop_inv rv (m : Machine S) : bounds_inv m → bounds_inv (watch_loop rv m).
Proof.
  unfold watch_loop. intros Hm. case_match; [by apply finish_inv|].
  apply exec_inv; [|done|done].
  apply keeps_ok. apply keeps_bind; [apply keeps_get|]. intros r.
  apply keeps_bind; [|intros; apply keeps_emit].
  case_match; [|apply keeps_ret].
  apply keeps_bind; [apply keeps_createHashkeyListOptions|intros; apply keeps_ret].
Qed.

Lemma start_resync_inv rv (m : Machine S) : bounds_inv m → bounds_inv (start_resync rv m).
Proof.
  unfold start_resync. intros Hm. apply exec_inv; [apply keeps_ok; keeps| |done].
  intros _ m' Hm'. by apply watch_loop_inv.
Qed.

Lemma start_list_inv options (m : Machine S) : bounds_inv m → bounds_inv (start_list options m).
Proof.
  unfold start_list. intros Hm.
  apply exec_inv; [apply keeps_ok; keeps|done|done].
Qed.

Lemma list_with_bounds_inv (m : Machine S) : bounds_inv m → bounds_inv (list_with_bounds m).
Proof.
  unfold list_with_bounds. intros Hm.
  apply exec_inv; [apply keeps_ok, keeps_createHashkeyListOptions| |done].
  intros; by apply start_list_inv.
Qed.

Lemma ListAndWatch_inv (m : Machine S) : bounds_inv m → bounds_inv (ListAndWatch m).
Proof.
  unfold ListAndWatch. intros Hm. cbn zeta. case_match.
  - apply exec_inv; [apply keeps_ok, keeps_isInitBounds| |done].
    intros init m' Hm'. repeat case_match; try done. by apply list_with_bounds_inv.
  - by apply start_list_inv.
Qed.

Lemma after_list_inv list err (m : Machine S) :
  bounds_inv m → bounds_inv (after_list list err m).
Proof.
  unfold after_list. intros Hm. repeat case_match; try done.
  apply exec_inv; [apply keeps_ok, keeps_syncWith| |done].
  intros e m' Hm'. case_match; [done|].
  apply exec_inv; [apply keeps_ok; keeps| |done]. intros; by apply start_resync_inv.
Qed.

Lemma watch_failed_inv rv err (m : Machine S) :
  bounds_inv m → bounds_inv (watch_failed rv err m).
Proof.
  unfold watch_failed. intros Hm.
  apply exec_inv; [apply keeps_ok; keeps| |done].
  intros _ m' Hm'. case_match; [|by apply finish_inv].
  apply exec_inv; [apply keeps_ok; keeps|done|done].
Qed.

Lemma after_handler_inv err rv (m : Machine S) :
  bounds_inv m → bounds_inv (after_handler err rv m).
Proof.
  unfold after_handler. intros Hm.
  repeat case_match; try (by apply finish_inv); try (by apply watch_loop_inv).
Qed.

Lemma handler_case_inv c rv n (m : Machine S) :
  ordered_case c → bounds_inv m → bounds_inv (handler_case c rv n m).
Proof.
  unfold handler_case. intros Hc Hm. case_match; [|done].
  apply exec_inv; [by apply ok_watchHandler_select| |done].
  intros s m' Hm'. case_match; [done|by apply after_handler_inv].
Qed.

Lemma resync_tick_inv (m : Machine S) : bounds_inv m → bounds_inv (resync_tick m).
Proof.
  unfold resync_tick. intros Hm. cbn zeta. repeat case_match; try done.
  all: apply exec_inv; [apply keeps_ok, keeps_store_call| |done].
  all: intros; by case_match.
Qed.

Lemma step_inv (m : Machine S) i :
  ordered_input i → bounds_inv m → bounds_inv (step m i).
Proof.
  intros Hi Hm. unfold step.
  destruct (pc m), i as [|[signal|]| | | | | | | | | |];
    first [ done
          | by apply resync_tick_inv
          | by apply handler_case_inv
          | by apply start_resync_inv
          | by apply after_list_inv
          | by apply watch_failed_inv
          | by apply watch_loop_inv
          | idtac ].
  - apply exec_inv; [by apply ok_setBounds| |done].
    intros; by apply list_with_bounds_inv.
  - case_match; [|done]. by apply handler_case_inv.
Qed.

(** The calls of ListAndWatch that Run makes one after the other without
    waiting, as in the loop of the reset mode, keep the invariant too. *)
Lemma ListAndWatch_calls_inv (calls : nat) (m : Machine S) :
  bounds_inv m → bounds_inv (Nat.iter calls ListAndWatch m).
Proof.
  intros Hm. induction calls as [|calls IH]; [exact Hm|].
  cbn. by apply ListAndWatch_inv.
Qed.

Lemma HandleError_inv (err : GoError) (m : Machine S) :
  bounds_inv m → bounds_inv (exec m (HandleError err) (λ _ m, m)).
Proof.
  intros Hm. apply exec_inv; [apply keeps_ok, keeps_HandleError|done|done].
Qed.

Lemma Run_func_inv (fuel : nat) :
  ∀ (m : Machine S) (st : RunState S),
    bounds_inv m → Run_func fuel m = Some st → bounds_inv (machine st).
Proof.
  induction fuel as [|fuel IH]; intros m st Hm; cbn [Run_func]; intros Hst;
    repeat case_match; simplify_eq; cbn [machine until_wait];
    first [ exact Hm
          | by apply HandleError_inv
          | eapply IH; [|eassumption]; by apply ListAndWatch_inv ].
Qed.

Lemma Run_inv (fuel : nat) (m : Machine S) (st : RunState S) :
  bounds_inv m → Run fuel m = Some st → bounds_inv (machine st).
Proof.
  intros Hm. unfold Run. case_match.
  - intros [= <-]. exact Hm.
  - apply Run_func_inv. by apply ListAndWatch_inv.
Qed.

Lemma Run_step_inv (fuel : nat) (s st : RunState S) (i : Input) :
  ordered_input i → bounds_inv (machine s) →
  Run_step fuel s i = Some st → bounds_inv (machine st).
Proof.
  intros Hi Hs. unfold Run_step.
  destruct (runPc s); [apply Run_func_inv; by apply step_inv| | |];
    destruct i; try (intros [= <-]; exact Hs).
  apply Run_func_inv. by apply ListAndWatch_inv.
Qed.

Lemma Run_steps_inv (fuel : nat) (inputs : list Input) :
  ∀ (s : option (RunState S)) (st : RunState S),
    Forall ordered_input inputs →
    (∀ s0, s = Some s0 → bounds_inv (machine s0)) →
    Run_steps fuel s inputs = Some st → bounds_inv (machine st).
Proof.
  unfold Run_steps.
  induction inputs as [|i inputs IH]; intros s st Hin Hs; cbn [foldl].
  - intros ->. by apply Hs.
  - apply Forall_cons in Hin as [Hi Hin]. apply IH; [exact Hin|].
    intros s1. destruct s as [s0|]; [|done]. cbn.
    intros Hstep. eapply Run_step_inv; [exact Hi|by apply Hs|exact Hstep].
Qed.

(** C8.  The constructors write the sentinel [-1, -1], and setBounds, the
    only other writer, stores the payload of the reset signal as it comes,
    without comparing its elements.  So at every state a reflector reaches,
    within one call of ListAndWatch and under Run, which calls ListAndWatch
    again after every reset, the bounds are the sentinel or a pair with
    lo ≤ hi, provided every signal the reset channel delivers is a pair with
    lo ≤ hi. *)
Theorem bounds_invariant (name ownerKind : string) (ty : option GoType)
    (s : S) (resyncPeriod : Z) (reset : bool) (rand : nat → Z)
    (fuel : nat) (inputs : list Input) :
  let r := if reset
           then NewReflectorWithReset name ty s resyncPeriod ownerKind
           else NewNamedReflector name ty s resyncPeriod in
  Forall ordered_input inputs →
  bounds r = [-1; -1]
  ∧ bounds_ok (bounds (refl (world (run (ListAndWatch (boot r rand)) inputs))))
  ∧ ∀ st, Run_steps fuel (Run fuel (boot r rand)) inputs = Some st →
          bounds_ok (bounds (refl (world (machine st)))).
Proof.
  intros r Hin.
  assert (bounds_inv (boot r rand)) as Hr by (left; by destruct reset).
  split; [by destruct reset|]. split.
  - unfold run.
    assert (bounds_inv (ListAndWatch (boot r rand))) as Hm
      by (by apply ListAndWatch_inv).
    revert Hm. generalize (ListAndWatch (boot r rand)).
    induction Hin as [|i inputs Hi _ IH]; intros m Hm; [exact Hm|].
    cbn. apply IH. by apply step_inv.
  - intros st. apply Run_steps_inv; [exact Hin|].
    intros s0 Hs0. by eapply Run_inv.
Qed.

End BoundsInvariant.

Lemma bounds_invariant_witness :
  Forall ordered_input reset_twice_inputs
  ∧ (∃ st, Run_steps 1 (Run 1 (boot sharded_reflector (λ _, 300)))
             reset_twice_inputs = Some st
           ∧ bounds (refl (world (machine st))) = [1000; 2000])
  ∧ bounds sharded_reflector = [-1; -1]
  ∧ bounds_ok (bounds (refl (world
      (run (ListAndWatch (boot sharded_reflector (λ _, 300))) reset_twice_inputs))))
  ∧ ∀ st, Run_steps 1 (Run 1 (boot sharded_reflector (λ _, 300)))
            reset_twice_inputs = Some st →
          bounds_ok (bounds (refl (world (machine st)))).
Proof.
  assert (Forall ordered_input reset_twice_inputs) as Hin.
  { repeat constructor.
    - exists 0, 1000. split; [reflexivity|lia].
    - exists 1000, 2000. split; [reflexivity|lia]. }
  split; [exact Hin|]. split.
  { eexists. split; [vm_compute; reflexivity|reflexivity]. }
  exact (bounds_invariant "pods" "" (Some "*v1.Pod") (∅ : gmap string Object)
           0 true (λ _, 300) 1 reset_twice_inputs Hin).
Defined.

(** A new reflector is given the signal [5, 3]: setBounds stores it, and
    the bounds are neither the sentinel nor a pair with lo ≤ hi. *)
Lemma bounds_invariant_broken_by_signal :
  bounds_ok (bounds sharded_reflector)
  ∧ ∃ w', setBounds (SigInt64s [5; 3]) {| refl := sharded_reflector; trace := [] |}
          = Done (tt, w')
          ∧ bounds (refl w') = [5; 3]
          ∧ ¬ bounds_ok (bounds (refl w')).
Proof.
  split; [by left|]. eexists. split; [reflexivity|]. split; [reflexivity|]. cbn.
  intros [H|(lo & hi & H & Hle)]; [discriminate H|]. injection H as <- <-. lia.
Qed.

Section PodContainerDeletor.
Import Kubelet.
Context {R KR : Type}.
Variable RemoveContainer : string → R → R.
Variable ContainerStateExited : string.
Variable render : ContainerID → string.

(** C9.  Whatever runtime it is given, newPodContainerDeletor returns a
    deletor whose runtime is nil and whose containersToKeep is the argument;
    and deleteContainersInPod on that deletor, before any setRuntime, panics
    on a nil dereference as soon as a candidate container is selected. *)
Theorem newPodContainerDeletor_nil_runtime (rt : KR) (keep : Z)
    (filterContainerID : string) (podStatus : PodStatus) (removeAll : bool)
    (candidate : ContainerStatus) (candidates : list ContainerStatus) :
  let p := newPodContainerDeletor (R := R) rt keep in
  getContainersToDeleteInPod ContainerStateExited
    (if removeAll then "" else filterContainerID) podStatus
    (if removeAll then 0 else keep) = Done (candidate :: candidates) →
  runtime p = None
  ∧ containersToKeep p = keep
  ∧ deleteContainersInPod RemoveContainer ContainerStateExited render
      p filterContainerID podStatus removeAll = Panic NilDereference.
Proof.
  intros p Hsel. split; [reflexivity|]. split; [reflexivity|].
  unfold deleteContainersInPod. cbn [containersToKeep p newPodContainerDeletor].
  rewrite Hsel. reflexivity.
Qed.

(** With no candidate selected nothing is called and nothing panics. *)
Lemma deleteContainersInPod_nothing_selected (p : podContainerDeletor R)
    (filterContainerID : string) (podStatus : PodStatus) (removeAll : bool) :
  getContainersToDeleteInPod ContainerStateExited
    (if removeAll then "" else filterContainerID) podStatus
    (if removeAll then 0 else containersToKeep p) = Done [] →
  deleteContainersInPod RemoveContainer ContainerStateExited render
      p filterContainerID podStatus removeAll = Done p.
Proof.
  intros Hsel. unfold deleteContainersInPod. rewrite Hsel. cbn. by destruct p.
Qed.

(** After setRuntime the same call removes the candidates, oldest last. *)
Lemma deleteContainersInPod_after_setRuntime (rt : KR) (service : R) (keep : Z)
    (filterContainerID : string) (podStatus : PodStatus) (removeAll : bool)
    (candidates : list ContainerStatus) :
  getContainersToDeleteInPod ContainerStateExited
    (if removeAll then "" else filterContainerID) podStatus
    (if removeAll then 0 else keep) = Done candidates →
  ∃ p', deleteContainersInPod RemoveContainer ContainerStateExited render
          (setRuntime (newPodContainerDeletor rt keep) (Some service))
          filterContainerID podStatus removeAll = Done p'
        ∧ runtime p' =
            Some (foldl (λ service c, RemoveContainer (render (ID c)) service)
                    service candidates).
Proof.
  intros Hsel. unfold deleteContainersInPod.
  cbn [containersToKeep setRuntime newPodContainerDeletor runtime].
  rewrite Hsel. clear Hsel. revert service.
  induction candidates as [|c candidates IH]; intros service.
  - eexists. split; reflexivity.
  - cbn [removeContainers foldl]. apply IH.
Qed.

End PodContainerDeletor.

Lemma newPodContainerDeletor_nil_runtime_witness :
  let p := Kubelet.newPodContainerDeletor (R := list string) tt 1 in
  Kubelet.getContainersToDeleteInPod "exited" "" two_exited 1
    = Done [exited "c1" "app" 10]
  ∧ Kubelet.runtime p = None
  ∧ Kubelet.containersToKeep p = 1
  ∧ Kubelet.deleteContainersInPod cons "exited" ContainerID_String
      p "" two_exited false = Panic NilDereference.
Proof.
  split; [reflexivity|].
  apply (newPodContainerDeletor_nil_runtime (R := list string) cons "exited"
           ContainerID_String tt 1 "" two_exited false
           (exited "c1" "app" 10) []).
  reflexivity.
Defined.

(** * Further properties of the event dispatcher *)

Section DispatcherEffects.
Context {S : Type} `{!Store S}.

Lemma store_call_effect (c : StoreCall) (w : World S) :
  ∃ err w', store_call c w = Done (err, w')
    ∧ trace w' = EStore c :: trace w
    ∧ same_config (refl w) (refl w')
    ∧ lastSyncResourceVersion (refl w') = lastSyncResourceVersion (refl w).
Proof.
  unfold store_call.
  destruct c; cbn;
    match goal with |- context [let '(_, _) := ?x in _] => destruct x end;
    do 2 eexists; (split; [reflexivity|]); done.
Qed.

(** X1.  An Added, Modified or Deleted event that passes the type filter and
    has metadata makes exactly one store call, the one of its type; whether
    or not the store returns an error the helper returns nil, counts the
    event and records the event's resource version, in *resourceVersion and
    as last-sync version. *)
Theorem watchHandlerHelper_applies (w : World S) (event : Event)
    (resourceVersion : string) (eventCount : Z) (meta : ObjectMeta)
    (call : StoreCall) :
  type_mismatch (expectedType (refl w)) (dynType (Object_ event)) = false →
  objectMeta (Object_ event) = Some meta →
  store_call_of (Type_ event) (Object_ event) = Some call →
  ∃ w' err w1,
    watchHandlerHelper event resourceVersion eventCount w
      = Done ((None, wrap_int64 (eventCount + 1), ResourceVersion meta), w')
    ∧ store_call call w = Done (err, w1)
    ∧ store (refl w') = store (refl w1)
    ∧ lastSyncResourceVersion (refl w') = ResourceVersion meta
    ∧ List.filter is_store_call (trace w')
        = EStore call :: List.filter is_store_call (trace w).
Proof.
  intros Hm Hmeta Hcall.
  unfold watchHandlerHelper, HandleError, setLastSyncResourceVersion. run_m.
  destruct (Type_ event) eqn:Hty; try discriminate Hcall; cbv beta;
    injection Hcall as <-; rewrite Hm, Hmeta;
    match goal with |- context [store_call ?c ?w] =>
      destruct (store_call_effect c w) as (err & w1 & Hc & Ht & _ & _) end;
    rewrite Hc; destruct err; cbn; do 3 eexists;
    (split; [reflexivity|]); (split; [reflexivity|]); cbn; rewrite Ht;
    repeat split; reflexivity.
Qed.

(** X2.  A Bookmark event, and an event of a type the helper does not know,
    that passes the type filter and has metadata touches the store in no
    way: the helper only records the event's resource version, counts the
    event and returns nil. *)
Theorem watchHandlerHelper_version_only (w : World S) (event : Event)
    (resourceVersion : string) (eventCount : Z) (meta : ObjectMeta) :
  type_mismatch (expectedType (refl w)) (dynType (Object_ event)) = false →
  objectMeta (Object_ event) = Some meta →
  Type_ event ≠ Error →
  store_call_of (Type_ event) (Object_ event) = None →
  ∃ w',
    watchHandlerHelper event resourceVersion eventCount w
      = Done ((None, wrap_int64 (eventCount + 1), ResourceVersion meta), w')
    ∧ refl w' = with_lastSyncResourceVersion (ResourceVersion meta) (refl w)
    ∧ List.filter is_store_call (trace w') = List.filter is_store_call (trace w).
Proof.
  intros Hm Hmeta Hne Hcall.
  unfold watchHandlerHelper, HandleError, setLastSyncResourceVersion. run_m.
  destruct (Type_ event) eqn:Hty; try discriminate Hcall; try done; cbv beta;
    rewrite Hm, Hmeta; cbn; eexists; repeat split; reflexivity.
Qed.

(** The helper on an event that is not an Error event, in full. *)
Lemma watchHandlerHelper_tracks (w : World S) (event : Event)
    (resourceVersion : string) (eventCount : Z) :
  Type_ event ≠ Error →
  ∃ w',
    watchHandlerHelper event resourceVersion eventCount w
      = Done ((None,
               if counted (refl w) event then wrap_int64 (eventCount + 1)
               else eventCount,
               if counted (refl w) event then event_version event
               else resourceVersion), w')
    ∧ same_config (refl w) (refl w')
    ∧ lastSyncResourceVersion (refl w')
        = (if counted (refl w) event then event_version event
           else lastSyncResourceVersion (refl w)).
Proof.
  intros Hty.
  unfold watchHandlerHelper, counted, event_version, HandleError,
    setLastSyncResourceVersion.
  run_m.
  destruct (Type_ event) eqn:Hev; try done; cbv beta;
    (destruct (type_mismatch (expectedType (refl w)) (dynType (Object_ event)));
      cbn [negb andb]; [eexists; (split; [reflexivity|done])|]);
    (destruct (objectMeta (Object_ event)) as [meta|];
      [rewrite bool_decide_eq_true_2 by eauto
      |rewrite bool_decide_eq_false_2 by (intros [? ?]; done);
       eexists; (split; [reflexivity|done])]).
  1-3: match goal with |- context [store_call ?c ?w] =>
         destruct (store_call_effect c w) as (err & w1 & -> & _ & Hc & Hl) end;
       destruct err; cbn; eexists; (split; [reflexivity|]); done.
  all: cbn; eexists; (split; [reflexivity|]); done.
Qed.

Lemma last_version_config (r r' : Reflector S) rv (events : list Event) :
  same_config r r' → last_version r' rv events = last_version r rv events.
Proof.
  intros (He & _). unfold last_version. revert rv.
  induction events as [|ev events IH]; intros rv; [done|]. cbn.
  rewrite IH. unfold counted. by rewrite He.
Qed.

(** X3.  After a run of events the handler holds, in *resourceVersion and as
    last-sync version alike, the resource version of the last event it
    counted; so the two agree whenever they agreed when the watch began, as
    they do after a list. *)
Theorem watchHandler_tracks_version (events : list Event) :
  ∀ (w : World S) (resourceVersion : string),
    Forall (λ ev, Type_ ev ≠ Error) events →
    Z.of_nat (length events) < 2 ^ 63 →
    ∃ w',
      watchHandler (map CaseEvent events) resourceVersion w
        = Done (inl (last_version (refl w) resourceVersion events,
                     events_counted (refl w) events), w')
      ∧ lastSyncResourceVersion (refl w')
          = last_version (refl w) (lastSyncResourceVersion (refl w)) events
      ∧ (resourceVersion = lastSyncResourceVersion (refl w) →
         lastSyncResourceVersion (refl w')
           = last_version (refl w) resourceVersion events).
Proof.
  intros w rv Hev Hlen. unfold watchHandler.
  assert (∀ n, 0 ≤ n → n + Z.of_nat (length events) < 2 ^ 63 →
    ∃ w',
      watchHandler_loop (map CaseEvent events) rv n w
        = Done (inl (last_version (refl w) rv events,
                     n + events_counted (refl w) events), w')
      ∧ lastSyncResourceVersion (refl w')
          = last_version (refl w) (lastSyncResourceVersion (refl w)) events) as H.
  { clear Hlen. revert w rv Hev.
    induction events as [|ev events IH]; intros w rv Hev n Hn Hlen.
    - cbn. unfold events_counted. cbn. rewrite Z.add_0_r. run_m.
      eexists; split; reflexivity.
    - apply Forall_cons in Hev as [Hty Hev].
      cbn [map watchHandler_loop].
      destruct (watchHandlerHelper_tracks w ev rv n Hty) as (w1 & Hh & Hc & Hl).
      unfold watchHandler_select at 1.
      run_m. cbn [case_enabled]. rewrite Hh.
      cbn [length] in Hlen.
      set (n1 := if counted (refl w) ev then wrap_int64 (n + 1) else n).
      set (rv1 := if counted (refl w) ev then event_version ev else rv).
      assert (n1 = n + (if counted (refl w) ev then 1 else 0)) as Hn1.
      { subst n1. destruct (counted (refl w) ev); [rewrite wrap_int64_small|]; lia. }
      destruct (IH w1 rv1 Hev n1) as (w' & -> & Hl');
        [destruct (counted (refl w) ev); lia..|].
      exists w'.
      assert (events_counted (refl w) (ev :: events)
              = (if counted (refl w) ev then 1 else 0)
                + events_counted (refl w1) events) as Hcount.
      { rewrite (counted_config _ _ _ Hc). unfold events_counted.
        cbn [List.filter]. destruct (counted (refl w) ev); cbn [length]; lia. }
      rewrite (last_version_config _ _ rv1 _ Hc).
      rewrite (last_version_config _ _ _ _ Hc) in Hl'.
      split.
      + do 3 f_equal. rewrite Hcount, Hn1. f_equal; lia.
      + rewrite Hl', Hl. reflexivity. }
  destruct (H 0) as (w' & -> & Hl); [lia|lia|].
  rewrite Z.add_0_l. exists w'. split; [done|]. split; [done|].
  intros ->. done.
Qed.

End DispatcherEffects.

Lemma watchHandlerHelper_applies_witness :
  let w : World (gmap string Object) := {| refl := pod_reflector; trace := [] |} in
  let event := {| Type_ := Added; Object_ := pod "A" "6" |} in
  let meta := {| Name := "A"; ResourceVersion := "6" |} in
  let call := CallAdd (pod "A" "6") in
  type_mismatch (expectedType (refl w)) (dynType (Object_ event)) = false
  ∧ objectMeta (Object_ event) = Some meta
  ∧ store_call_of (Type_ event) (Object_ event) = Some call
  ∧ ∃ w' err w1,
      watchHandlerHelper event "5" 0 w
        = Done ((None, wrap_int64 (0 + 1), ResourceVersion meta), w')
      ∧ store_call call w = Done (err, w1)
      ∧ store (refl w') = store (refl w1)
      ∧ lastSyncResourceVersion (refl w') = ResourceVersion meta
      ∧ List.filter is_store_call (trace w')
          = EStore call :: List.filter is_store_call (trace w).
Proof.
  intros w event meta call.
  split; [reflexivity|]. split; [reflexivity|]. split; [reflexivity|].
  apply (watchHandlerHelper_applies w event "5" 0 meta call); reflexivity.
Defined.

Lemma watchHandlerHelper_version_only_witness :
  let w : World (gmap string Object) := {| refl := pod_reflector; trace := [] |} in
  let event := {| Type_ := Bookmark; Object_ := pod "" "9" |} in
  let meta := {| Name := ""; ResourceVersion := "9" |} in
  type_mismatch (expectedType (refl w)) (dynType (Object_ event)) = false
  ∧ objectMeta (Object_ event) = Some meta
  ∧ Type_ event ≠ Error
  ∧ store_call_of (Type_ event) (Object_ event) = None
  ∧ ∃ w',
      watchHandlerHelper event "5" 0 w
        = Done ((None, wrap_int64 (0 + 1), ResourceVersion meta), w')
      ∧ refl w' = with_lastSyncResourceVersion (ResourceVersion meta) (refl w)
      ∧ List.filter is_store_call (trace w') = List.filter is_store_call (trace w).
Proof.
  intros w event meta.
  split; [reflexivity|]. split; [reflexivity|]. split; [discriminate|].
  split; [reflexivity|].
  apply (watchHandlerHelper_version_only w event "5" 0 meta);
    [reflexivity|reflexivity|discriminate|reflexivity].
Defined.

Lemma watchHandler_tracks_version_witness :
  let w : World (gmap string Object) := {| refl := pod_reflector; trace := [] |} in
  let events := [ {| Type_ := Added; Object_ := pod "A" "6" |};
                  {| Type_ := Added; Object_ := service "S" "7" |} ] in
  Forall (λ ev, Type_ ev ≠ Error) events
  ∧ Z.of_nat (length events) < 2 ^ 63
  ∧ last_version (refl w) "5" events = "6"
  ∧ ∃ w',
      watchHandler (map CaseEvent events) "5" w
        = Done (inl (last_version (refl w) "5" events,
                     events_counted (refl w) events), w')
      ∧ lastSyncResourceVersion (refl w')
          = last_version (refl w) (lastSyncResourceVersion (refl w)) events
      ∧ ("5" = lastSyncResourceVersion (refl w) →
         lastSyncResourceVersion (refl w') = last_version (refl w) "5" events).
Proof.
  intros w events.
  assert (Forall (λ ev, Type_ ev ≠ Error) events) as Hev
    by (repeat constructor; discriminate).
  split; [exact Hev|]. split; [reflexivity|]. split; [reflexivity|].
  apply (watchHandler_tracks_version events w "5" Hev). reflexivity.
Defined.

Section HandlerEffects.
Context {S : Type} `{!Store S}.
Variable P : Effect → bool.

Lemma emits_ret {A} (a : A) : emits P (mret a : M S A).
Proof. intros w. by exists []. Qed.

Lemma emits_bind {A B} (c : M S A) (k : A → M S B) :
  emits P c → (∀ a, emits P (k a)) → emits P (c ≫= k).
Proof.
  intros Hc Hk w. run_m. specialize (Hc w). destruct (c w) as [[a w1]|]; [|done].
  specialize (Hk a w1). destruct (k a w1) as [[b w2]|]; [|done].
  destruct Hc as (n1 & H1 & F1), Hk as (n2 & H2 & F2).
  exists (n2 ++ n1). rewrite H2, H1, app_assoc. split; [done|].
  rewrite forallb_app. by rewrite F1, F2.
Qed.

Lemma emits_get : emits P (get : M S _).
Proof. intros w. by exists []. Qed.

Lemma emits_emit (e : Effect) : P e = true → emits P (emit e : M S _).
Proof. intros He w. exists [e]. cbn. by rewrite He. Qed.

Lemma emits_lift {A} (o : Outcome A) : emits P (lift o : M S A).
Proof. intros w. unfold lift. destruct o; [by exists []|done]. Qed.

Lemma emits_modify (f : Reflector S → Reflector S) : emits P (modify f).
Proof. intros w. by exists []. Qed.

Lemma emits_store_call (c : StoreCall) :
  P (EStore c) = true → emits P (store_call c : M S _).
Proof.
  intros Hc w. unfold store_call.
  destruct c; cbn;
    match goal with |- context [let '(_, _) := ?x in _] => destruct x end;
    eexists [_]; cbn; by rewrite Hc.
Qed.

End HandlerEffects.

Section HandlerTrace.
Context {S : Type} `{!Store S}.

Ltac emits :=
  repeat (intros;
          first [ apply emits_ret | apply emits_get | apply emits_lift
                | apply emits_modify
                | apply emits_emit; reflexivity
                | apply emits_store_call; reflexivity
                | apply emits_bind
                | case_match ]).

Lemma emits_watchHandlerHelper event rv n :
  emits quiet (watchHandlerHelper event rv n : M S _).
Proof.
  unfold watchHandlerHelper, HandleError, setLastSyncResourceVersion. emits.
Qed.

Lemma emits_setBounds signal : emits quiet (setBounds signal : M S _).
Proof. unfold setBounds. emits. Qed.

Lemma watchHandler_select_effects (c : HandlerCase) (rv : string) (n : Z)
    (w : World S) :
  match watchHandler_select c rv n w with
  | Done (Continue _ _, w') =>
    ∃ new, trace w' = new ++ trace w ∧ forallb quiet new = true
  | Done (Return _ _, w') =>
    ∃ new, trace w' = EWatchStop :: new ++ trace w ∧ forallb quiet new = true
  | Panic _ => True
  end.
Proof.
  destruct c as [|[signal|]|err|event|d]; cbn [watchHandler_select]; run_m;
    try (by exists []).
  - pose proof (emits_setBounds signal w) as H.
    destruct (setBounds signal w) as [[[] w1]|]; [|done]. cbn.
    destruct H as (new & -> & F). by exists new.
  - pose proof (emits_watchHandlerHelper event rv n w) as H.
    destruct (watchHandlerHelper event rv n w) as [[[[err n'] rv'] w1]|]; [|done].
    destruct H as (new & Ht & F). destruct err; cbn; rewrite ?Ht; by exists new.
Qed.

(** X4.  Whatever cases its select takes, watchHandler stops the watch
    exactly once, as its last act, when it returns, and not while it still
    waits; besides that it only calls Add, Update and Delete on the store and
    reports to the error handler: it never lists, watches, replaces or
    resyncs, and starts no goroutine. *)
Theorem watchHandler_effects (cases : list HandlerCase) :
  ∀ (w : World S) (rv : string),
    match watchHandler cases rv w with
    | Done (inl _, w') =>
      ∃ new, trace w' = new ++ trace w ∧ forallb quiet new = true
    | Done (inr _, w') =>
      ∃ new, trace w' = EWatchStop :: new ++ trace w ∧ forallb quiet new = true
    | Panic _ => True
    end.
Proof.
  unfold watchHandler. generalize 0.
  induction cases as [|c cases IH]; intros n w rv.
  - cbn. by exists [].
  - cbn [watchHandler_loop]. run_m.
    destruct (case_enabled (refl w) c); [|apply IH].
    pose proof (watchHandler_select_effects c rv n w) as Hs.
    destruct (watchHandler_select c rv n w) as [[[rv1 n1|err rv1] w1]|]; [| |done].
    + specialize (IH n1 w1 rv1).
      destruct Hs as (n0 & H0 & F0).
      destruct (watchHandler_loop cases rv1 n1 w1) as [[[?|?] w2]|]; [| |done];
        destruct IH as (new & Hn & Fn); exists (new ++ n0);
        rewrite Hn, H0, forallb_app, Fn, F0; split; try done;
        by rewrite ?app_assoc, ?app_comm_cons, ?app_assoc.
    + exact Hs.
Qed.

End HandlerTrace.

(** * Further properties of ListAndWatch and Run *)

Section ListAndWatchReturns.
Context {S : Type} `{!Store S}.

Lemma pc_finish (err : option GoError) (m : Machine S) :
  pc (finish err m) = Finished err.
Proof. done. Qed.

Lemma pc_watch_loop (rv : string) (m : Machine S) (err : GoError) :
  pc (watch_loop rv m) ≠ Finished (Some err).
Proof.
  unfold watch_loop. destruct (stopClosed m); [by rewrite pc_finish|].
  unfold exec.
  match goal with |- context [match ?c with _ => _ end] =>
    destruct c as [[? ?]|] end; done.
Qed.

Lemma pc_after_handler (e : option GoError) (rv : string) (m : Machine S)
    (err : GoError) :
  pc (after_handler e rv m) = Finished (Some err) → err = errorResetRequested.
Proof.
  unfold after_handler.
  destruct e as [e|]; [|by intros ?%pc_watch_loop].
  destruct e; try (rewrite pc_finish; congruence).
  destruct (resyncAlive m); cbn; congruence.
Qed.

Lemma pc_handler_case c rv n (m : Machine S) (err : GoError) :
  in_watch_phase (pc m) = true →
  pc (handler_case c rv n m) = Finished (Some err) → err = errorResetRequested.
Proof.
  intros Hm. unfold handler_case. destruct (case_enabled _ _).
  2: { intros Hpc. rewrite Hpc in Hm. done. }
  unfold exec. destruct (watchHandler_select c rv n (world m)) as [[[]?]|]; cbn;
    [by destruct (pc m)|apply pc_after_handler|by destruct (pc m)].
Qed.

Lemma pc_watch_failed rv e (m : Machine S) (err : GoError) :
  pc (watch_failed rv e m) = Finished (Some err) → False.
Proof.
  unfold watch_failed, exec, HandleError. run_m.
  destruct e; cbn; repeat case_match; cbn; congruence.
Qed.

Lemma pc_resync_tick (m : Machine S) (err : GoError) :
  in_watch_phase (pc m) = true →
  pc (resync_tick m) = Finished (Some err) → False.
Proof.
  intros Hm. unfold resync_tick, exec, store_call. cbn zeta.
  destruct (_ && _); [|by destruct (pc m)].
  destruct (ShouldResync _) as [[]|]; cbn;
    try destruct (store_Resync _) as [[?|] ?]; cbn; by destruct (pc m).
Qed.

(** X5.  Once the list is done ListAndWatch returns no error but
    errorResetRequested: whatever happens at the watch request, in the
    backoff or in the handler, every other return is nil. *)
Theorem watch_phase_error (m : Machine S) (i : Input) (err : GoError) :
  in_watch_phase (pc m) = true →
  pc (step m i) = Finished (Some err) →
  err = errorResetRequested.
Proof.
  intros Hm. unfold step.
  destruct (pc m) eqn:Hpc; try done; destruct i;
    first [ by intros H'; cbn in H'; rewrite Hpc in H'
          | by apply pc_handler_case; rewrite ?Hpc
          | by intros ?%pc_watch_loop
          | by intros ?%pc_watch_failed
          | by intros ?%pc_resync_tick; rewrite ?Hpc
          | idtac ].
  - intros H'. discriminate H'.
  - apply pc_handler_case. cbn. by rewrite Hpc.
  - destruct (resyncerrc m).
    + apply pc_handler_case. cbn. by rewrite Hpc.
    + intros H'. by rewrite Hpc in H'.
Qed.

Lemma createHashkeyListOptions_selector (w : World S) (lo hi : Z) (rest : list Z) :
  bounds (refl w) = lo :: hi :: rest →
  createHashkeyListOptions w
    = Done (selector_options (spec_selector (ownerKind (refl w)) lo hi), w).
Proof.
  intros Hb. unfold createHashkeyListOptions, spec_selector. run_m.
  rewrite Hb. cbn.
  destruct (String.eqb_spec (ownerKind (refl w)) "") as [E|E];
    [rewrite bool_decide_eq_true_2 by done
    |rewrite bool_decide_eq_false_2 by done];
    cbn;
    (destruct (Z.eqb_spec lo 0);
      [rewrite bool_decide_eq_true_2 by done
      |rewrite bool_decide_eq_false_2 by done]);
    rewrite append_nil_r; reflexivity.
Qed.

Lemma syncWith_found (items : list Object) :
  foldl (λ found item, found ++ [item]) [] items = items.
Proof.
  assert (∀ acc : list Object,
            foldl (λ found item, found ++ [item]) acc items
                 = acc ++ items) as H.
  { induction items as [|x items IH]; intros acc; cbn; [by rewrite app_nil_r|].
    rewrite IH. by rewrite <- app_assoc. }
  apply H.
Qed.

(** The watch request at the head of the watch loop. *)
Lemma watch_loop_request (m : Machine S) (rv : string) :
  stopClosed m = false →
  (2 ≤ length (bounds (refl (world m))))%nat →
  pc (watch_loop rv m) = AtWatch rv
  ∧ world (watch_loop rv m) =
      {| refl := refl (world m);
         trace := EWatch (watch_options rv (rand m (draws m))
                            (selector_of (refl (world m))))
                  :: trace (world m) |}
  ∧ stopClosed (watch_loop rv m) = false
  ∧ resyncAlive (watch_loop rv m) = resyncAlive m
  ∧ resyncerrc (watch_loop rv m) = resyncerrc m.
Proof.
  intros Hs Hb. unfold watch_loop, exec, selector_of. rewrite Hs. run_m. cbn.
  destruct (resetCh (refl (world m))); [|done].
  destruct (bounds (refl (world m))) as [|lo [|hi rest]] eqn:Hbd; cbn in Hb; try lia.
  rewrite (createHashkeyListOptions_selector _ lo hi rest Hbd). done.
Qed.

(** X6.  A list that fails in the pager, or whose result gives no resource
    version or no items, makes ListAndWatch return an error and do nothing
    else: the store is not called, no goroutine is started, no watch is
    requested and the last-sync version stays. *)
Theorem list_failure (m : Machine S) (list : ListResult) (err : option GoError) :
  pc m = AtList →
  list_failed list err →
  ∃ e, step m (InListDone list err) = set_pc (Finished (Some e)) m.
Proof.
  intros Hpc Hf. unfold step. rewrite Hpc. unfold after_list.
  destruct err as [e|]; [eauto|].
  destruct Hf as [[? ?]|[[e He]|[e He]]]; [done| |].
  - rewrite He. eauto.
  - rewrite He. destruct (listResourceVersion list); eauto.
Qed.

(** X7.  When the store's Replace fails, ListAndWatch returns the error
    wrapped, after that one store call: the last-sync version is not
    updated, and no resync worker and no watch are started. *)
Theorem list_replace_failure (m : Machine S) (items : list Object)
    (resourceVersion : string) (e : GoError) (s' : S) :
  pc m = AtList →
  store_Replace items resourceVersion (store (refl (world m))) = (Some e, s') →
  let m' := step m (InListDone {| listResourceVersion := inl resourceVersion;
                                  listItems := inl items |} None) in
  pc m' = Finished (Some (fmt_Errorf_err "%s: Unable to sync list result: %v" e))
  ∧ refl (world m') = with_store s' (refl (world m))
  ∧ trace (world m') = EStore (CallReplace items resourceVersion) :: trace (world m)
  ∧ resyncAlive m' = resyncAlive m.
Proof.
  intros Hpc Hr m'. subst m'. unfold step. rewrite Hpc. unfold after_list.
  cbn [listResourceVersion listItems]. unfold exec, syncWith, store_call.
  rewrite syncWith_found, Hr. done.
Qed.

(** X8.  A list that succeeds replaces the content of the store by the items
    listed, in their order, records the list's resource version as last-sync
    version, starts the resync worker and requests a watch from that
    version, with the timeout drawn, without bookmarks and, in reset mode,
    with the selector of the bounds. *)
Theorem list_success (m : Machine S) (items : list Object)
    (resourceVersion : string) (s' : S) :
  pc m = AtList →
  stopClosed m = false →
  (2 ≤ length (bounds (refl (world m))))%nat →
  store_Replace items resourceVersion (store (refl (world m))) = (None, s') →
  let m' := step m (InListDone {| listResourceVersion := inl resourceVersion;
                                  listItems := inl items |} None) in
  pc m' = AtWatch resourceVersion
  ∧ refl (world m')
      = with_lastSyncResourceVersion resourceVersion (with_store s' (refl (world m)))
  ∧ trace (world m')
      = EWatch (watch_options resourceVersion (rand m (draws m))
                  (selector_of (refl (world m))))
        :: EGo ResyncWorker
        :: EStore (CallReplace items resourceVersion)
        :: trace (world m)
  ∧ resyncAlive m' = true.
Proof.
  intros Hpc Hs Hb Hr m'.
  set (m0 := set_resync true None
               (set_world
                  {| refl := with_lastSyncResourceVersion resourceVersion
                               (with_store s' (refl (world m)));
                     trace := EGo ResyncWorker
                              :: EStore (CallReplace items resourceVersion)
                              :: trace (world m) |} m)).
  assert (m' = watch_loop resourceVersion m0) as ->.
  { subst m' m0. unfold step. rewrite Hpc. unfold after_list.
    cbn [listResourceVersion listItems]. unfold exec, syncWith, store_call.
    rewrite syncWith_found, Hr. reflexivity. }
  destruct (watch_loop_request m0 resourceVersion Hs Hb) as (H1 & H2 & _ & H4 & _).
  rewrite H1, H2, H4. done.
Qed.

End ListAndWatchReturns.

Lemma watch_phase_error_witness :
  let m := watching_shard in
  let i := InReset (Some (SigInt64s [1000; 2000])) in
  in_watch_phase (pc m) = true
  ∧ pc (step m i) = Finished (Some errorResetRequested)
  ∧ errorResetRequested = errorResetRequested.
Proof.
  intros m i.
  assert (in_watch_phase (pc m) = true) as H1 by (vm_compute; reflexivity).
  assert (pc (step m i) = Finished (Some errorResetRequested)) as H2
    by (vm_compute; reflexivity).
  split; [exact H1|]. split; [exact H2|].
  exact (watch_phase_error m i errorResetRequested H1 H2).
Defined.

Lemma list_failure_witness :
  let m := listing_pods in
  let list := {| listResourceVersion := inl "5"; listItems := inl [] |} in
  pc m = AtList
  ∧ list_failed list (Some io_EOF)
  ∧ ∃ e, step m (InListDone list (Some io_EOF)) = set_pc (Finished (Some e)) m.
Proof.
  intros m list.
  assert (list_failed list (Some io_EOF)) as Hf by (left; eexists; reflexivity).
  split; [reflexivity|]. split; [exact Hf|].
  apply (list_failure m list (Some io_EOF)); [reflexivity|exact Hf].
Defined.

Lemma list_replace_failure_witness :
  let m := listing_pods in
  let items := [status] in
  let m' := step m (InListDone {| listResourceVersion := inl "5";
                                  listItems := inl items |} None) in
  pc m = AtList
  ∧ store_Replace items "5" (store (refl (world m))) = (Some KeyedStore.errNoKey, ∅)
  ∧ pc m' = Finished (Some (fmt_Errorf_err "%s: Unable to sync list result: %v"
                              KeyedStore.errNoKey))
  ∧ refl (world m') = with_store ∅ (refl (world m))
  ∧ trace (world m') = EStore (CallReplace items "5") :: trace (world m)
  ∧ resyncAlive m' = resyncAlive m.
Proof.
  intros m items m'.
  split; [reflexivity|]. split; [reflexivity|].
  apply (list_replace_failure m items "5" KeyedStore.errNoKey ∅); reflexivity.
Defined.

Lemma list_success_witness :
  let m := listing_pods in
  let items := [pod "A" "1"] in
  let s' : gmap string Object := {[ "A" := pod "A" "1" ]} in
  let m' := step m (InListDone {| listResourceVersion := inl "5";
                                  listItems := inl items |} None) in
  pc m = AtList
  ∧ stopClosed m = false
  ∧ (2 ≤ length (bounds (refl (world m))))%nat
  ∧ store_Replace items "5" (store (refl (world m))) = (None, s')
  ∧ pc m' = AtWatch "5"
  ∧ refl (world m')
      = with_lastSyncResourceVersion "5" (with_store s' (refl (world m)))
  ∧ trace (world m')
      = EWatch (watch_options "5" (rand m (draws m))
                  (selector_of (refl (world m))))
        :: EGo ResyncWorker
        :: EStore (CallReplace items "5")
        :: trace (world m)
  ∧ resyncAlive m' = true.
Proof.
  intros m items s' m'.
  assert (store_Replace items "5" (store (refl (world m))) = (None, s')) as Hr
    by (vm_compute; reflexivity).
  split; [reflexivity|]. split; [reflexivity|]. split; [vm_compute; lia|].
  split; [exact Hr|].
  apply (list_success m items "5" s'); [reflexivity|reflexivity|vm_compute; lia|exact Hr].
Defined.

Section ResetProtocol.
Context {S : Type} `{!Store S}.

(** The list request ListAndWatch starts with in reset mode. *)
Lemma list_with_bounds_request (m : Machine S) (lo hi : Z) (rest : list Z) :
  bounds (refl (world m)) = lo :: hi :: rest →
  list_with_bounds m =
    set_pc AtList
      (set_world
         {| refl := refl (world m);
            trace := EList (appendFieldSelector list_options
                              (selector_options
                                 (spec_selector (ownerKind (refl (world m))) lo hi)))
                       (WatchListPageSize (refl (world m)))
                     :: EGo ListHelper :: trace (world m) |} m).
Proof.
  intros Hb. unfold list_with_bounds, exec.
  rewrite (createHashkeyListOptions_selector _ lo hi rest Hb). reflexivity.
Qed.

(** X9.  A reflector waiting for its bounds that receives the pair [lo, hi]
    stores it and at once starts the list, from resource version 0 and with
    the field selector of the new bounds. *)
Theorem bounds_acquired (m : Machine S) (lo hi : Z) :
  pc m = AtBounds →
  (2 ≤ length (bounds (refl (world m))))%nat →
  let m' := step m (InReset (Some (SigInt64s [lo; hi]))) in
  pc m' = AtList
  ∧ refl (world m') = with_bounds [lo; hi] (refl (world m))
  ∧ ∃ options,
      trace (world m')
        = EList options (WatchListPageSize (refl (world m)))
          :: EGo ListHelper :: trace (world m)
      ∧ optResourceVersion options = "0"
      ∧ FieldSelector options = spec_selector (ownerKind (refl (world m))) lo hi.
Proof.
  intros Hpc Hb m'. subst m'. unfold step. rewrite Hpc. unfold exec.
  rewrite setBounds_stores by (cbn; lia).
  rewrite (list_with_bounds_request _ lo hi []) by reflexivity.
  split; [reflexivity|]. split; [reflexivity|]. eexists. split; [reflexivity|].
  split; reflexivity.
Qed.

Lemma reset_step (m : Machine S) (rv : string) (n : Z) (lo hi : Z) :
  pc m = AtHandler rv n →
  resetCh (refl (world m)) = true →
  (2 ≤ length (bounds (refl (world m))))%nat →
  step m (InReset (Some (SigInt64s [lo; hi])))
    = after_handler (Some errorResetRequested) rv
        (set_world {| refl := with_bounds [lo; hi] (refl (world m));
                      trace := EWatchStop :: trace (world m) |} m).
Proof.
  intros Hpc Hr Hb. unfold step. rewrite Hpc.
  unfold handler_case. cbn [case_enabled]. rewrite Hr.
  unfold exec. cbn [watchHandler_select]. run_m.
  rewrite setBounds_stores by (cbn; lia). reflexivity.
Qed.

Lemma reset_step_facts (m : Machine S) (rv : string) (n : Z) (lo hi : Z) :
  pc m = AtHandler rv n →
  resetCh (refl (world m)) = true →
  (2 ≤ length (bounds (refl (world m))))%nat →
  let m' := step m (InReset (Some (SigInt64s [lo; hi]))) in
  pc m' = Finished (Some errorResetRequested)
  ∧ refl (world m') = with_bounds [lo; hi] (refl (world m))
  ∧ trace (world m')
      = ECancelClose
        :: (if resyncAlive m then [ECancelSend] else []) ++ EWatchStop
        :: trace (world m)
  ∧ resyncAlive m' = false
  ∧ stopClosed m' = stopClosed m.
Proof.
  intros Hpc Hr Hb m'. subst m'. rewrite (reset_step m rv n lo hi Hpc Hr Hb).
  unfold after_handler. cbn [resyncAlive set_world].
  destruct (resyncAlive m); repeat split.
Qed.

(** X10.  A reset signal [lo, hi] that arrives during the watch stores the
    new bounds, stops the watch, tells the resync worker to stop when it is
    still there, and makes ListAndWatch return errorResetRequested; the store
    is not touched. *)
Theorem reset_during_watch (m : Machine S) (rv : string) (n : Z) (lo hi : Z) :
  pc m = AtHandler rv n →
  resetCh (refl (world m)) = true →
  (2 ≤ length (bounds (refl (world m))))%nat →
  let m' := step m (InReset (Some (SigInt64s [lo; hi]))) in
  pc m' = Finished (Some errorResetRequested)
  ∧ refl (world m') = with_bounds [lo; hi] (refl (world m))
  ∧ trace (world m')
      = ECancelClose
        :: (if resyncAlive m then [ECancelSend] else []) ++ EWatchStop
        :: trace (world m)
  ∧ resyncAlive m' = false.
Proof.
  intros Hpc Hr Hb m'.
  destruct (reset_step_facts m rv n lo hi Hpc Hr Hb) as (H1 & H2 & H3 & H4 & _).
  done.
Qed.

(** A ListAndWatch that waits leaves Run inside it. *)
Lemma Run_func_blocked (fuel : nat) (m : Machine S) :
  match pc m with Finished _ | Panicked _ => False | _ => True end →
  Run_func fuel m = Some {| machine := m; runPc := InListAndWatch |}.
Proof. intros Hpc. destruct fuel; cbn; by destruct (pc m). Qed.

(** X11.  In Run a reset signal during the watch leads straight to a new
    list, without the wait of a period: ListAndWatch is called again and
    lists from resource version 0 with the selector of the new bounds. *)
Theorem Run_restarts_on_reset (fuel : nat) (m : Machine S) (rv : string)
    (n : Z) (lo hi : Z) :
  pc m = AtHandler rv n →
  resetCh (refl (world m)) = true →
  (2 ≤ length (bounds (refl (world m))))%nat →
  stopClosed m = false →
  (lo =? -1) && (hi =? -1) = false →
  ∃ m',
    Run_step (Datatypes.S fuel) {| machine := m; runPc := InListAndWatch |}
      (InReset (Some (SigInt64s [lo; hi])))
      = Some {| machine := m'; runPc := InListAndWatch |}
    ∧ pc m' = AtList
    ∧ bounds (refl (world m')) = [lo; hi]
    ∧ ∃ options older,
        trace (world m')
          = EList options (WatchListPageSize (refl (world m)))
            :: EGo ListHelper :: ECancelClose :: older
        ∧ optResourceVersion options = "0"
        ∧ FieldSelector options = spec_selector (ownerKind (refl (world m))) lo hi.
Proof.
  intros Hpc Hr Hb Hs Hinit. unfold Run_step. cbn [runPc machine].
  destruct (reset_step_facts m rv n lo hi Hpc Hr Hb)
    as (H1 & H2 & H3 & H4 & Hs1).
  set (m1 := step m _) in *. rewrite Hs in Hs1.
  cbn [Run_func]. rewrite H1, H2. cbn [resetCh with_bounds]. rewrite Hr.
  assert (ListAndWatch m1
          = list_with_bounds (set_resync false None m1)) as Hl.
  { unfold ListAndWatch. cbn zeta. cbn [world set_resync]. rewrite H2.
    cbn [resetCh with_bounds]. rewrite Hr. unfold exec at 1.
    cbn [world set_resync].
    rewrite (isInitBounds_pure _ lo hi []) by (rewrite H2; reflexivity).
    rewrite Hinit. cbn. rewrite Hs1. reflexivity. }
  rewrite Hl, (list_with_bounds_request _ lo hi [])
    by (cbn; rewrite H2; reflexivity).
  rewrite Run_func_blocked by exact I.
  eexists. split; [reflexivity|]. cbn. rewrite H2, H3. cbn.
  split; [done|]. split; [done|]. do 2 eexists. split; [reflexivity|]. done.
Qed.

End ResetProtocol.

Lemma bounds_acquired_witness :
  let m := awaiting_bounds in
  let m' := step m (InReset (Some (SigInt64s [0; 1000]))) in
  pc m = AtBounds
  ∧ (2 ≤ length (bounds (refl (world m))))%nat
  ∧ pc m' = AtList
  ∧ refl (world m') = with_bounds [0; 1000] (refl (world m))
  ∧ ∃ options,
      trace (world m')
        = EList options (WatchListPageSize (refl (world m)))
          :: EGo ListHelper :: trace (world m)
      ∧ optResourceVersion options = "0"
      ∧ FieldSelector options = spec_selector (ownerKind (refl (world m))) 0 1000.
Proof.
  intros m m'.
  split; [reflexivity|]. split; [vm_compute; lia|].
  apply (bounds_acquired m 0 1000); [reflexivity|vm_compute; lia].
Defined.

Lemma reset_during_watch_witness :
  pc watching_shard = AtHandler "5" 0
  ∧ resetCh (refl (world watching_shard)) = true
  ∧ (2 ≤ length (bounds (refl (world watching_shard))))%nat
  ∧ let m' := step watching_shard (InReset (Some (SigInt64s [1000; 2000]))) in
    pc m' = Finished (Some errorResetRequested)
    ∧ refl (world m') = with_bounds [1000; 2000] (refl (world watching_shard))
    ∧ trace (world m')
        = ECancelClose
          :: (if resyncAlive watching_shard then [ECancelSend] else []) ++ EWatchStop
          :: trace (world watching_shard)
    ∧ resyncAlive m' = false.
Proof.
  assert (pc watching_shard = AtHandler "5" 0) as H1 by (vm_compute; reflexivity).
  assert (resetCh (refl (world watching_shard)) = true) as H2
    by (vm_compute; reflexivity).
  assert (2 ≤ length (bounds (refl (world watching_shard))))%nat as H3
    by (vm_compute; lia).
  split; [exact H1|]. split; [exact H2|]. split; [exact H3|].
  exact (reset_during_watch watching_shard "5" 0 1000 2000 H1 H2 H3).
Defined.

Lemma Run_restarts_on_reset_witness :
  let m := watching_shard in
  pc m = AtHandler "5" 0
  ∧ resetCh (refl (world m)) = true
  ∧ (2 ≤ length (bounds (refl (world m))))%nat
  ∧ stopClosed m = false
  ∧ ∃ m',
      Run_step 1 {| machine := m; runPc := InListAndWatch |}
        (InReset (Some (SigInt64s [1000; 2000])))
        = Some {| machine := m'; runPc := InListAndWatch |}
      ∧ pc m' = AtList
      ∧ bounds (refl (world m')) = [1000; 2000]
      ∧ ∃ options older,
          trace (world m')
            = EList options (WatchListPageSize (refl (world m)))
              :: EGo ListHelper :: ECancelClose :: older
          ∧ optResourceVersion options = "0"
          ∧ FieldSelector options
              = spec_selector (ownerKind (refl (world m))) 1000 2000.
Proof.
  intros m.
  split; [reflexivity|]. split; [reflexivity|]. split; [vm_compute; lia|].
  split; [reflexivity|].
  apply (Run_restarts_on_reset 0 m "5" 0 1000 2000);
    [reflexivity|reflexivity|vm_compute; lia|reflexivity|reflexivity].
Defined.

Section WatchPhase.
Context {S : Type} `{!Store S}.

(** X12.  When the result channel closes the handler stops the watch and the
    reflector is as it was.  After a very short watch ListAndWatch returns
    nil; otherwise, with the stop channel open, it requests a new watch from
    the resource version it holds, and lists nothing. *)
Theorem watch_closed (m : Machine S) (rv : string) (n d : Z) :
  pc m = AtHandler rv n →
  stopClosed m = false →
  (2 ≤ length (bounds (refl (world m))))%nat →
  let m' := step m (InClosed d) in
  refl (world m') = refl (world m)
  ∧ if (d <? Second) && (n =? 0)
    then pc m' = Finished None
         ∧ trace (world m') = ECancelClose :: EWatchStop :: trace (world m)
    else pc m' = AtWatch rv
         ∧ trace (world m')
             = EWatch (watch_options rv (rand m (draws m))
                         (selector_of (refl (world m))))
               :: EWatchStop :: trace (world m).
Proof.
  intros Hpc Hs Hb m'.
  set (m0 := set_world {| refl := refl (world m);
                          trace := EWatchStop :: trace (world m) |} m).
  assert (m' = after_handler (watchHandler_closed d n) rv m0) as ->.
  { subst m' m0. unfold step. rewrite Hpc. reflexivity. }
  unfold watchHandler_closed. change (1 * Second) with Second.
  destruct ((d <? Second) && (n =? 0)).
  - cbn. done.
  - unfold after_handler.
    destruct (watch_loop_request m0 rv Hs Hb) as (H1 & H2 & _).
    rewrite H1, H2. done.
Qed.

(** X13.  The backoff after a refused connection does not watch the stop
    channel: when it closes during the sleep ListAndWatch sleeps on, and
    returns nil when the sleep is over, without another watch request. *)
Theorem stop_during_backoff (m : Machine S) (rv : string) :
  pc m = AtSleep rv →
  let m1 := step m InStop in
  let m2 := step m1 InSleepDone in
  pc m1 = AtSleep rv
  ∧ world m1 = world m
  ∧ pc m2 = Finished None
  ∧ refl (world m2) = refl (world m)
  ∧ trace (world m2) = ECancelClose :: trace (world m).
Proof.
  intros Hpc m1 m2.
  assert (m1 = set_stopClosed m) as E1
    by (subst m1; unfold step; rewrite Hpc; reflexivity).
  assert (m2 = finish None (set_stopClosed m)) as E2.
  { subst m2. rewrite E1. unfold step. cbn [pc set_stopClosed]. rewrite Hpc.
    reflexivity. }
  rewrite E2, E1. cbn. by rewrite Hpc.
Qed.

(** X14.  A tick of the resync timer during the watch phase calls Resync on
    the store once, and does nothing else, when the worker is alive, the
    resync period is not zero and ShouldResync is nil or answers true; in
    every other case it does nothing at all.  A Resync that fails leaves its
    error in the channel and ends the worker. *)
Theorem resync_tick_effect (m : Machine S) :
  in_watch_phase (pc m) = true →
  let m' := step m InResyncTick in
  let due := resyncAlive m
             && negb (resyncPeriod (refl (world m)) =? 0)
             && negb (bool_decide (ShouldResync (refl (world m)) = Some false)) in
  pc m' = pc m
  ∧ trace (world m') = (if due then [EStore CallResync] else []) ++ trace (world m)
  ∧ (if due
     then store (refl (world m')) = (store_Resync (store (refl (world m)))).2
          ∧ resyncerrc m'
              = (if (store_Resync (store (refl (world m)))).1 is Some e
                 then Some e else resyncerrc m)
          ∧ resyncAlive m'
              = bool_decide ((store_Resync (store (refl (world m)))).1 = None)
     else m' = m).
Proof.
  intros Hm m' due.
  assert (m' = resync_tick m) as ->.
  { subst m'. unfold step. by destruct (pc m). }
  subst due. unfold resync_tick, exec, store_call. cbn zeta.
  destruct (resyncAlive m) eqn:Ha; cbn [andb]; [|done].
  destruct (negb (resyncPeriod _ =? 0)); cbn [andb]; [|done].
  destruct (ShouldResync (refl (world m))) as [[]|] eqn:Hsr; cbn; try done.
  all: destruct (store_Resync (store (refl (world m)))) as [[e|] s'] eqn:Hres;
    cbn; rewrite ?Ha; done.
Qed.

(** X15.  A Resync that fails ends the watch: the handler takes the error
    from the channel and stops the watch, and ListAndWatch returns nil, so
    that Run lists again. *)
Theorem resync_failure_ends_watch (m : Machine S) (rv : string) (n : Z)
    (e : GoError) (s' : S) :
  pc m = AtHandler rv n →
  resyncAlive m = true →
  resyncPeriod (refl (world m)) ≠ 0 →
  ShouldResync (refl (world m)) ≠ Some false →
  store_Resync (store (refl (world m))) = (Some e, s') →
  e ≠ errorResetRequested →
  let m' := step (step m InResyncTick) InErrc in
  pc m' = Finished None
  ∧ refl (world m') = with_store s' (refl (world m))
  ∧ trace (world m')
      = ECancelClose :: EWatchStop :: EStore CallResync :: trace (world m)
  ∧ resyncerrc m' = None.
Proof.
  intros Hpc Ha Hp Hsr Hres He m'.
  assert (step m InResyncTick
          = set_resync false (Some e)
              (set_world {| refl := with_store s' (refl (world m));
                            trace := EStore CallResync :: trace (world m) |} m))
    as Htick.
  { unfold step. rewrite Hpc. unfold resync_tick, exec, store_call. cbn zeta.
    rewrite Ha. destruct (Z.eqb_spec (resyncPeriod (refl (world m))) 0); [done|].
    cbn [negb andb].
    destruct (ShouldResync (refl (world m))) as [[]|]; try done;
      rewrite Hres; reflexivity. }
  subst m'. rewrite Htick. unfold step. cbn [pc set_resync set_world resyncerrc].
  rewrite Hpc. unfold handler_case. cbn [case_enabled]. unfold exec.
  cbn [watchHandler_select]. run_m. cbn.
  unfold after_handler. destruct e; try done.
Qed.

End WatchPhase.

Lemma watch_closed_witness :
  pc watching_pods = AtHandler "5" 0
  ∧ stopClosed watching_pods = false
  ∧ (2 ≤ length (bounds (refl (world watching_pods))))%nat
  ∧ let m' := step watching_pods (InClosed 2000000000) in
    refl (world m') = refl (world watching_pods)
    ∧ if (2000000000 <? Second) && (0 =? 0)
      then pc m' = Finished None
           ∧ trace (world m')
               = ECancelClose :: EWatchStop :: trace (world watching_pods)
      else pc m' = AtWatch "5"
           ∧ trace (world m')
               = EWatch (watch_options "5"
                           (rand watching_pods (draws watching_pods))
                           (selector_of (refl (world watching_pods))))
                 :: EWatchStop :: trace (world watching_pods).
Proof.
  assert (pc watching_pods = AtHandler "5" 0) as H1 by (vm_compute; reflexivity).
  assert (stopClosed watching_pods = false) as H2 by (vm_compute; reflexivity).
  assert (2 ≤ length (bounds (refl (world watching_pods))))%nat as H3
    by (vm_compute; lia).
  split; [exact H1|]. split; [exact H2|]. split; [exact H3|].
  exact (watch_closed watching_pods "5" 0 2000000000 H1 H2 H3).
Defined.

Lemma stop_during_backoff_witness :
  pc backing_off = AtSleep "5"
  ∧ let m1 := step backing_off InStop in
    let m2 := step m1 InSleepDone in
    pc m1 = AtSleep "5"
    ∧ world m1 = world backing_off
    ∧ pc m2 = Finished None
    ∧ refl (world m2) = refl (world backing_off)
    ∧ trace (world m2) = ECancelClose :: trace (world backing_off).
Proof.
  assert (pc backing_off = AtSleep "5") as H1 by (vm_compute; reflexivity).
  split; [exact H1|].
  exact (stop_during_backoff backing_off "5" H1).
Defined.

Lemma resync_tick_effect_witness :
  in_watch_phase (pc resyncing) = true
  ∧ let m' := step resyncing InResyncTick in
    let due := resyncAlive resyncing
               && negb (resyncPeriod (refl (world resyncing)) =? 0)
               && negb (bool_decide
                          (ShouldResync (refl (world resyncing)) = Some false)) in
    pc m' = pc resyncing
    ∧ trace (world m')
        = (if due then [EStore CallResync] else []) ++ trace (world resyncing)
    ∧ (if due
       then store (refl (world m'))
              = (store_Resync (store (refl (world resyncing)))).2
            ∧ resyncerrc m'
                = (if (store_Resync (store (refl (world resyncing)))).1 is Some e
                   then Some e else resyncerrc resyncing)
            ∧ resyncAlive m'
                = bool_decide
                    ((store_Resync (store (refl (world resyncing)))).1 = None)
       else m' = resyncing).
Proof.
  assert (in_watch_phase (pc resyncing) = true) as H1 by (vm_compute; reflexivity).
  split; [exact H1|].
  exact (resync_tick_effect resyncing H1).
Defined.

Lemma resync_failure_ends_watch_witness :
  pc resyncing = AtHandler "5" 0
  ∧ resyncAlive resyncing = true
  ∧ resyncPeriod (refl (world resyncing)) ≠ 0
  ∧ ShouldResync (refl (world resyncing)) ≠ Some false
  ∧ store_Resync (store (refl (world resyncing)))
      = (Some FailingResync.errResync, {| FailingResync.content := ∅ |})
  ∧ FailingResync.errResync ≠ errorResetRequested
  ∧ let m' := step (step resyncing InResyncTick) InErrc in
    pc m' = Finished None
    ∧ refl (world m')
        = with_store {| FailingResync.content := ∅ |} (refl (world resyncing))
    ∧ trace (world m')
        = ECancelClose :: EWatchStop :: EStore CallResync
          :: trace (world resyncing)
    ∧ resyncerrc m' = None.
Proof.
  assert (pc resyncing = AtHandler "5" 0) as H1 by (vm_compute; reflexivity).
  assert (resyncAlive resyncing = true) as H2 by (vm_compute; reflexivity).
  assert (resyncPeriod (refl (world resyncing)) ≠ 0) as H3
    by (vm_compute; discriminate).
  assert (ShouldResync (refl (world resyncing)) ≠ Some false) as H4
    by (vm_compute; discriminate).
  assert (store_Resync (store (refl (world resyncing)))
          = (Some FailingResync.errResync, {| FailingResync.content := ∅ |}))
    as H5 by (vm_compute; reflexivity).
  assert (FailingResync.errResync ≠ errorResetRequested) as H6 by discriminate.
  split; [exact H1|]. split; [exact H2|]. split; [exact H3|].
  split; [exact H4|]. split; [exact H5|]. split; [exact H6|].
  exact (resync_failure_ends_watch resyncing "5" 0 FailingResync.errResync
           {| FailingResync.content := ∅ |} H1 H2 H3 H4 H5 H6).
Defined.

Section RunLoop.
Context {S : Type} `{!Store S}.

(** X16.  Without a reset channel an error of the list is handed to the
    error handler and Run waits for its period; when the period is over it
    calls ListAndWatch again, which lists from resource version 0 with no
    selector. *)
Theorem Run_retries_after_period (fuel : nat) (m : Machine S)
    (list : ListResult) (e : GoError) :
  pc m = AtList →
  resetCh (refl (world m)) = false →
  stopClosed m = false →
  ∃ m1 m2,
    Run_step fuel {| machine := m; runPc := InListAndWatch |}
      (InListDone list (Some e))
      = Some {| machine := m1; runPc := WaitPeriod |}
    ∧ world m1
        = {| refl := refl (world m);
             trace := EHandleError (fmt_Errorf_err "%s: Failed to list %v: %v" e)
                      :: trace (world m) |}
    ∧ Run_step fuel {| machine := m1; runPc := WaitPeriod |} InPeriod
        = Some {| machine := m2; runPc := InListAndWatch |}
    ∧ pc m2 = AtList
    ∧ world m2
        = {| refl := refl (world m);
             trace := EList list_options (WatchListPageSize (refl (world m)))
                      :: EGo ListHelper :: trace (world m1) |}.
Proof.
  intros Hpc Hr Hs. unfold Run_step. cbn [runPc machine].
  assert (step m (InListDone list (Some e))
          = set_pc (Finished (Some (fmt_Errorf_err "%s: Failed to list %v: %v" e))) m)
    as -> by (unfold step; rewrite Hpc; reflexivity).
  do 2 eexists. split.
  { destruct fuel; cbn [Run_func pc set_pc world]; rewrite Hr;
      unfold until_wait, exec, HandleError; cbn; rewrite Hs; reflexivity. }
  split; [reflexivity|]. split.
  { rewrite Run_func_blocked.
    - reflexivity.
    - unfold ListAndWatch. cbn. rewrite Hr. exact I. }
  unfold ListAndWatch. cbn. rewrite Hr. done.
Qed.

(** X17.  Without a reset channel Run exits when the stop channel closes
    while ListAndWatch waits for the list or for watch events, and leaves
    the reflector and its store as they were. *)
Theorem Run_exits_on_stop (fuel : nat) (m : Machine S) :
  resetCh (refl (world m)) = false →
  pc m = AtList ∨ (∃ rv n, pc m = AtHandler rv n) →
  ∃ m', Run_step fuel {| machine := m; runPc := InListAndWatch |} InStop
        = Some {| machine := m'; runPc := RunExited |}
        ∧ refl (world m') = refl (world m).
Proof.
  intros Hr Hpc. unfold Run_step. cbn [runPc machine].
  exists (step m InStop).
  assert (pc (step m InStop) = Finished None
          ∧ refl (world (step m InStop)) = refl (world m)
          ∧ stopClosed (step m InStop) = true) as (H1 & H2 & H3).
  { destruct Hpc as [Hpc|(rv & n & Hpc)]; unfold step; rewrite Hpc; done. }
  split; [|exact H2].
  destruct fuel; cbn [Run_func]; rewrite H1, H2, Hr; unfold until_wait;
    rewrite H3; reflexivity.
Qed.

Lemma exec_same_bounds {A} (m0 m : Machine S) (c : M S A)
    (k : A → Machine S → Machine S) :
  keeps_bounds c → (∀ a m, same_bounds m0 m → same_bounds m0 (k a m)) →
  same_bounds m0 m → same_bounds m0 (exec m c k).
Proof.
  intros Hc Hk Hm. unfold exec. specialize (Hc (world m)).
  destruct (c (world m)) as [[a w]|]; [|exact Hm].
  apply Hk. unfold same_bounds in *. cbn. congruence.
Qed.

Ltac keeps :=
  repeat (intros;
          first [ apply keeps_ret | apply keeps_get | apply keeps_emit
                | apply keeps_lift | apply keeps_store_call
                | apply keeps_setLastSyncResourceVersion
                | apply keeps_HandleError
                | apply keeps_createHashkeyListOptions
                | apply keeps_isInitBounds
                | apply keeps_syncWith
                | apply keeps_watchHandlerHelper
                | apply keeps_bind
                | case_match ]).

Ltac same :=
  repeat (intros;
          first [ assumption
                | apply exec_same_bounds; [keeps| |]
                | case_match ]).

Lemma finish_same m0 err (m : Machine S) :
  same_bounds m0 m → same_bounds m0 (finish err m).
Proof. unfold finish. same. Qed.

Lemma watch_loop_same m0 rv (m : Machine S) :
  same_bounds m0 m → same_bounds m0 (watch_loop rv m).
Proof. unfold watch_loop. intros. case_match; [by apply finish_same|]. same. Qed.

Lemma start_resync_same m0 rv (m : Machine S) :
  same_bounds m0 m → same_bounds m0 (start_resync rv m).
Proof.
  unfold start_resync. intros. apply exec_same_bounds; [keeps| |done].
  intros. by apply watch_loop_same.
Qed.

Lemma after_list_same m0 list err (m : Machine S) :
  same_bounds m0 m → same_bounds m0 (after_list list err m).
Proof.
  unfold after_list. intros. repeat case_match; try done.
  apply exec_same_bounds; [keeps| |done]. intros. case_match; [done|].
  apply exec_same_bounds; [keeps| |done]. intros. by apply start_resync_same.
Qed.

Lemma watch_failed_same m0 rv err (m : Machine S) :
  same_bounds m0 m → same_bounds m0 (watch_failed rv err m).
Proof.
  unfold watch_failed. intros. apply exec_same_bounds; [keeps| |done].
  intros. case_match; [|by apply finish_same].
  apply exec_same_bounds; [keeps|done|done].
Qed.

Lemma after_handler_same m0 err rv (m : Machine S) :
  same_bounds m0 m → same_bounds m0 (after_handler err rv m).
Proof.
  unfold after_handler. intros.
  repeat case_match; try (by apply finish_same); try (by apply watch_loop_same).
Qed.

Lemma keeps_watchHandler_select c rv n :
  match c with CaseReset (Some _) => False | _ => True end →
  keeps_bounds (watchHandler_select c rv n : M S _).
Proof.
  intros Hc. destruct c as [|[signal|]|err|event|d]; try done;
    cbn [watchHandler_select]; keeps.
Qed.

Lemma handler_case_same m0 c rv n (m : Machine S) :
  match c with CaseReset (Some _) => False | _ => True end →
  same_bounds m0 m → same_bounds m0 (handler_case c rv n m).
Proof.
  unfold handler_case. intros Hc Hm. destruct (case_enabled _ _); [|done].
  apply exec_same_bounds; [by apply keeps_watchHandler_select| |done].
  intros s m' Hm'. destruct s; [done|by apply after_handler_same].
Qed.

Lemma resync_tick_same m0 (m : Machine S) :
  same_bounds m0 m → same_bounds m0 (resync_tick m).
Proof.
  unfold resync_tick. intros Hm. cbn zeta. repeat case_match; try done.
  all: apply exec_same_bounds; [apply keeps_store_call| |done].
  all: intros ? ? ?; by case_match.
Qed.

Lemma step_same_bounds (m0 m : Machine S) (i : Input) :
  is_reset_signal i = false →
  same_bounds m0 m → same_bounds m0 (step m i).
Proof.
  intros Hi Hm. unfold step.
  destruct (pc m), i as [|[signal|]| | | | | | | | | |]; try done;
    first [ by apply resync_tick_same
          | by apply handler_case_same
          | by apply start_resync_same
          | by apply after_list_same
          | by apply watch_failed_same
          | by apply watch_loop_same
          | idtac ].
  case_match; [|done]. by apply handler_case_same.
Qed.

(** X18.  Only a signal on the reset channel changes the bounds: whatever
    else happens to ListAndWatch (list results, watch events and errors,
    resync ticks, stop, a closed reset channel) the bounds stay as they
    are. *)
Theorem only_reset_changes_bounds (m : Machine S) (inputs : list Input) :
  Forall (λ i, is_reset_signal i = false) inputs →
  bounds (refl (world (run m inputs))) = bounds (refl (world m)).
Proof.
  intros Hin. change (same_bounds m (run m inputs)).
  assert (same_bounds m m) as Hm by done. revert Hm. generalize m at 1 3.
  unfold run. revert m.
  induction Hin as [|i inputs Hi _ IH]; intros m m0 Hm; [exact Hm|].
  cbn. apply IH. by apply step_same_bounds.
Qed.

End RunLoop.

Lemma Run_retries_after_period_witness :
  let list := {| listResourceVersion := inl ""; listItems := inl [] |} in
  pc listing_pods = AtList
  ∧ resetCh (refl (world listing_pods)) = false
  ∧ stopClosed listing_pods = false
  ∧ ∃ m1 m2,
      Run_step 1 {| machine := listing_pods; runPc := InListAndWatch |}
        (InListDone list (Some io_EOF))
        = Some {| machine := m1; runPc := WaitPeriod |}
      ∧ world m1
          = {| refl := refl (world listing_pods);
               trace := EHandleError
                          (fmt_Errorf_err "%s: Failed to list %v: %v" io_EOF)
                        :: trace (world listing_pods) |}
      ∧ Run_step 1 {| machine := m1; runPc := WaitPeriod |} InPeriod
          = Some {| machine := m2; runPc := InListAndWatch |}
      ∧ pc m2 = AtList
      ∧ world m2
          = {| refl := refl (world listing_pods);
               trace := EList list_options
                          (WatchListPageSize (refl (world listing_pods)))
                        :: EGo ListHelper :: trace (world m1) |}.
Proof.
  intros list.
  assert (pc listing_pods = AtList) as H1 by (vm_compute; reflexivity).
  assert (resetCh (refl (world listing_pods)) = false) as H2
    by (vm_compute; reflexivity).
  assert (stopClosed listing_pods = false) as H3 by (vm_compute; reflexivity).
  split; [exact H1|]. split; [exact H2|]. split; [exact H3|].
  exact (Run_retries_after_period 1 listing_pods list io_EOF H1 H2 H3).
Defined.

Lemma Run_exits_on_stop_witness :
  resetCh (refl (world watching_pods)) = false
  ∧ (pc watching_pods = AtList ∨ ∃ rv n, pc watching_pods = AtHandler rv n)
  ∧ ∃ m', Run_step 1 {| machine := watching_pods; runPc := InListAndWatch |} InStop
          = Some {| machine := m'; runPc := RunExited |}
          ∧ refl (world m') = refl (world watching_pods).
Proof.
  assert (resetCh (refl (world watching_pods)) = false) as H1
    by (vm_compute; reflexivity).
  assert (pc watching_pods = AtList ∨ ∃ rv n, pc watching_pods = AtHandler rv n)
    as H2 by (right; exists "5", 0; vm_compute; reflexivity).
  split; [exact H1|]. split; [exact H2|].
  exact (Run_exits_on_stop 1 watching_pods H1 H2).
Defined.

Lemma only_reset_changes_bounds_witness :
  let inputs := [ InEvent {| Type_ := Added; Object_ := pod "A" "6" |};
                  InReset None ] in
  Forall (λ i, is_reset_signal i = false) inputs
  ∧ bounds (refl (world (run watching_shard inputs)))
      = bounds (refl (world watching_shard)).
Proof.
  intros inputs.
  assert (Forall (λ i, is_reset_signal i = false) inputs) as H1
    by (repeat constructor).
  split; [exact H1|].
  exact (only_reset_changes_bounds watching_shard inputs H1).
Defined.

(** * Further properties of the pod container deletor *)

Section DeletorSelection.
Import Kubelet.
Context {R KR : Type}.
Variable RemoveContainer : string → R → R.
Variable ContainerStateExited : string.
Variable render : ContainerID → string.

Lemma insert_sorted_perm x l : insert_sorted x l ≡ₚ x :: l.
Proof.
  induction l as [|y l IH]; cbn; [done|].
  destruct (Less x y); [done|]. rewrite IH. apply Permutation_swap.
Qed.

Lemma insert_sorted_elem x y l : y ∈ insert_sorted x l → y = x ∨ y ∈ l.
Proof. rewrite insert_sorted_perm. set_solver. Qed.

Lemma insert_sorted_sorted x l :
  StronglySorted newer_or_equal l →
  StronglySorted newer_or_equal (insert_sorted x l).
Proof.
  induction 1 as [|y l Hl IH Hy]; cbn; [repeat constructor|].
  unfold Less. destruct (Z.ltb_spec (CreatedAt y) (CreatedAt x)).
  - constructor; [by constructor|]. constructor; [unfold newer_or_equal; lia|].
    eapply Forall_impl; [exact Hy|]. unfold newer_or_equal. intros; lia.
  - constructor; [exact IH|].
    apply Forall_forall. intros z Hz. apply insert_sorted_elem in Hz as [->|Hz].
    + unfold newer_or_equal. lia.
    + by eapply Forall_forall in Hy.
Qed.

Lemma sort_Sort_acc (l acc : list ContainerStatus) :
  StronglySorted newer_or_equal acc →
  foldl (λ acc x, insert_sorted x acc) acc l ≡ₚ acc ++ l
  ∧ StronglySorted newer_or_equal (foldl (λ acc x, insert_sorted x acc) acc l).
Proof.
  revert acc. induction l as [|x l IH]; intros acc Hacc; cbn.
  - by rewrite app_nil_r.
  - destruct (IH (insert_sorted x acc)) as [Hp Hs]; [by apply insert_sorted_sorted|].
    split; [|done]. rewrite Hp, insert_sorted_perm. cbn.
    apply Permutation_middle.
Qed.

Lemma sort_Sort_perm l : sort_Sort l ≡ₚ l.
Proof. unfold sort_Sort. by destruct (sort_Sort_acc l []) as [? _]; [constructor|]. Qed.

Lemma sort_Sort_sorted l : StronglySorted newer_or_equal (sort_Sort l).
Proof. unfold sort_Sort. by destruct (sort_Sort_acc l []) as [_ ?]; [constructor|]. Qed.

(** X19.  With a count to keep that is not negative, and a filter that is
    empty or names a container of the pod, getContainersToDeleteInPod splits
    the exited containers (those of the matched container's name, when there
    is a filter) in two: it keeps the containersToKeep newest and returns
    all the others, newest first; every container it returns was created no
    later than every container it keeps. *)
Theorem getContainersToDeleteInPod_keeps_newest (filterContainerID : string)
    (podStatus : PodStatus) (keep : Z) :
  0 ≤ keep →
  (filterContainerID = "" ∨ is_Some (matchedContainer filterContainerID podStatus)) →
  ∃ kept deleted,
    getContainersToDeleteInPod ContainerStateExited filterContainerID podStatus keep
      = Done deleted
    ∧ kept ++ deleted ≡ₚ
        List.filter
          (selectable ContainerStateExited
             (matchedContainer filterContainerID podStatus))
          (ContainerStatuses podStatus)
    ∧ length kept = (Z.to_nat keep `min` length (kept ++ deleted))%nat
    ∧ StronglySorted newer_or_equal deleted
    ∧ ∀ k d, k ∈ kept → d ∈ deleted → CreatedAt d ≤ CreatedAt k.
Proof.
  intros Hkeep Hfilter. unfold getContainersToDeleteInPod.
  set (matched := matchedContainer filterContainerID podStatus).
  set (candidates := List.filter _ _).
  assert (negb (String.eqb filterContainerID "")
          && negb (bool_decide (is_Some matched)) = false) as ->.
  { destruct Hfilter as [->|Hm]; [done|].
    rewrite (bool_decide_eq_true_2 _ Hm). by rewrite andb_false_r. }
  pose proof (sort_Sort_perm candidates) as Hp.
  pose proof (sort_Sort_sorted candidates) as Hs.
  assert (∀ k d, k ∈ take (Z.to_nat keep) (sort_Sort candidates) →
                 d ∈ drop (Z.to_nat keep) (sort_Sort candidates) →
                 CreatedAt d ≤ CreatedAt k) as Hnew.
  { rewrite <- (take_drop (Z.to_nat keep) (sort_Sort candidates)) in Hs.
    intros k d Hk Hd.
    exact (StronglySorted_app_1_elem_of _ _ _ _ _ Hs Hk Hd). }
  destruct (Z.leb_spec (Z.of_nat (length candidates)) keep) as [Hle|Hgt].
  - exists (sort_Sort candidates), []. rewrite app_nil_r.
    split; [done|]. split; [done|]. split.
    { rewrite Hp. lia. }
    split; [constructor|]. intros k d _ Hd. by apply elem_of_nil in Hd.
  - destruct (Z.ltb_spec keep 0); [lia|].
    exists (take (Z.to_nat keep) (sort_Sort candidates)),
           (drop (Z.to_nat keep) (sort_Sort candidates)).
    split; [done|]. rewrite take_drop. split; [done|]. split.
    { rewrite length_take. done. }
    split; [|exact Hnew].
    rewrite <- (take_drop (Z.to_nat keep) (sort_Sort candidates)) in Hs.
    by apply StronglySorted_app_1_r in Hs.
Qed.

(** X20.  With a negative count to keep, and a filter that is empty or
    names a container of the pod, getContainersToDeleteInPod panics: the
    slice expression candidates[containersToKeep:] is out of range, even
    when the pod has no exited container. *)
Theorem getContainersToDeleteInPod_negative_keep (filterContainerID : string)
    (podStatus : PodStatus) (keep : Z) :
  keep < 0 →
  (filterContainerID = "" ∨ is_Some (matchedContainer filterContainerID podStatus)) →
  ∃ len,
    getContainersToDeleteInPod ContainerStateExited filterContainerID podStatus keep
      = Panic (SliceOutOfRange keep len).
Proof.
  intros Hkeep Hfilter. unfold getContainersToDeleteInPod.
  set (matched := matchedContainer filterContainerID podStatus).
  assert (negb (String.eqb filterContainerID "")
          && negb (bool_decide (is_Some matched)) = false) as ->.
  { destruct Hfilter as [->|Hm]; [done|].
    rewrite (bool_decide_eq_true_2 _ Hm). by rewrite andb_false_r. }
  cbn zeta.
  match goal with |- context [Z.of_nat (length ?l) <=? keep] =>
    destruct (Z.leb_spec (Z.of_nat (length l)) keep); [lia|] end.
  destruct (Z.ltb_spec keep 0); [eauto|lia].
Qed.

(** X21.  A filter that names no container of the pod makes
    deleteContainersInPod do nothing, whatever the count to keep and even
    on a deletor whose runtime is nil: nothing is removed and nothing
    panics. *)
Theorem deleteContainersInPod_unknown_filter (p : podContainerDeletor R)
    (filterContainerID : string) (podStatus : PodStatus) :
  filterContainerID ≠ "" →
  Forall (λ c, ContainerID_ID (ID c) ≠ filterContainerID)
    (ContainerStatuses podStatus) →
  deleteContainersInPod RemoveContainer ContainerStateExited render
    p filterContainerID podStatus false = Done p.
Proof.
  intros Hne Hall. unfold deleteContainersInPod, getContainersToDeleteInPod.
  assert (matchedContainer filterContainerID podStatus = None) as ->.
  { unfold matchedContainer.
    destruct (String.eqb_spec filterContainerID ""); [done|].
    induction Hall as [|c l Hc _ IH]; [done|]. cbn.
    destruct (String.eqb_spec (ContainerID_ID (ID c)) filterContainerID); done. }
  destruct (String.eqb_spec filterContainerID ""); [done|].
  cbn. by destruct p.
Qed.

Lemma removeContainers_some (rt : R) (candidates : list ContainerStatus) :
  removeContainers RemoveContainer render (Some rt) candidates
    = Done (Some (foldl (λ rt c, RemoveContainer (render (ID c)) rt) rt candidates)).
Proof.
  revert rt. induction candidates as [|c candidates IH]; intros rt; [done|].
  cbn. apply IH.
Qed.

Lemma sort_Sort_nil_inv (l : list ContainerStatus) :
  length l = 0%nat → sort_Sort l = [].
Proof. by destruct l. Qed.

(** X22.  With removeAll set, deleteContainersInPod on a deletor that has a
    runtime removes every exited container of the pod, once each and from
    the newest to the oldest: the filter and the count to keep play no part,
    and the count to keep of the deletor stays. *)
Theorem deleteContainersInPod_removeAll (keep : Z) (rt : R)
    (filterContainerID : string) (podStatus : PodStatus) :
  ∃ removed,
    removed ≡ₚ List.filter (λ c, String.eqb (State c) ContainerStateExited)
                 (ContainerStatuses podStatus)
    ∧ StronglySorted newer_or_equal removed
    ∧ deleteContainersInPod RemoveContainer ContainerStateExited render
        {| containersToKeep := keep; runtime := Some rt |}
        filterContainerID podStatus true
      = Done {| containersToKeep := keep;
                runtime := Some (foldl (λ rt c, RemoveContainer (render (ID c)) rt)
                                   rt removed) |}.
Proof.
  set (exited_ones :=
         List.filter (λ c, String.eqb (State c) ContainerStateExited)
           (ContainerStatuses podStatus)).
  exists (sort_Sort exited_ones).
  split; [apply sort_Sort_perm|]. split; [apply sort_Sort_sorted|].
  unfold deleteContainersInPod, getContainersToDeleteInPod.
  cbn [matchedContainer String.eqb negb andb containersToKeep runtime].
  assert (List.filter
            (λ containerStatus : ContainerStatus,
               (State containerStatus =? ContainerStateExited)%string && true)
            (ContainerStatuses podStatus) = exited_ones) as ->.
  { subst exited_ones. apply List.filter_ext. intros c. by rewrite andb_true_r. }
  destruct (Z.leb_spec (Z.of_nat (length exited_ones)) 0).
  - rewrite sort_Sort_nil_inv by lia. reflexivity.
  - cbn. by rewrite removeContainers_some.
Qed.

(** X23.  After setRuntime, deleteContainersInPod calls RemoveContainer on
    the runtime once for every container selected, in the order of the
    selection, with the container's rendered id, and returns normally. *)
Theorem deleteContainersInPod_removes_selected (rt : KR) (service : R) (keep : Z)
    (filterContainerID : string) (podStatus : PodStatus) (removeAll : bool)
    (candidates : list ContainerStatus) :
  getContainersToDeleteInPod ContainerStateExited
    (if removeAll then "" else filterContainerID) podStatus
    (if removeAll then 0 else keep) = Done candidates →
  deleteContainersInPod RemoveContainer ContainerStateExited render
    (setRuntime (newPodContainerDeletor rt keep) (Some service))
    filterContainerID podStatus removeAll
  = Done {| containersToKeep := keep;
            runtime := Some (foldl (λ service c,
                                      RemoveContainer (render (ID c)) service)
                               service candidates) |}.
Proof.
  intros Hsel. unfold deleteContainersInPod.
  cbn [containersToKeep setRuntime newPodContainerDeletor runtime].
  rewrite Hsel, removeContainers_some. reflexivity.
Qed.

End DeletorSelection.

Lemma getContainersToDeleteInPod_keeps_newest_witness :
  0 ≤ 1
  ∧ ("" = "" ∨ is_Some (Kubelet.matchedContainer "" two_exited))
  ∧ ∃ kept deleted,
      Kubelet.getContainersToDeleteInPod "exited" "" two_exited 1 = Done deleted
      ∧ kept ++ deleted ≡ₚ
          List.filter
            (selectable "exited" (Kubelet.matchedContainer "" two_exited))
            (Kubelet.ContainerStatuses two_exited)
      ∧ length kept = (Z.to_nat 1 `min` length (kept ++ deleted))%nat
      ∧ StronglySorted newer_or_equal deleted
      ∧ ∀ k d, k ∈ kept → d ∈ deleted →
               Kubelet.CreatedAt d ≤ Kubelet.CreatedAt k.
Proof.
  assert (0 ≤ 1) as H1 by lia.
  assert ("" = "" ∨ is_Some (Kubelet.matchedContainer "" two_exited)) as H2
    by (left; reflexivity).
  split; [exact H1|]. split; [exact H2|].
  exact (getContainersToDeleteInPod_keeps_newest "exited" "" two_exited 1 H1 H2).
Defined.

Lemma getContainersToDeleteInPod_negative_keep_witness :
  -1 < 0
  ∧ ("" = "" ∨ is_Some (Kubelet.matchedContainer "" two_exited))
  ∧ ∃ len,
      Kubelet.getContainersToDeleteInPod "exited" "" two_exited (-1)
        = Panic (SliceOutOfRange (-1) len).
Proof.
  assert (-1 < 0) as H1 by lia.
  assert ("" = "" ∨ is_Some (Kubelet.matchedContainer "" two_exited)) as H2
    by (left; reflexivity).
  split; [exact H1|]. split; [exact H2|].
  exact (getContainersToDeleteInPod_negative_keep "exited" "" two_exited (-1) H1 H2).
Defined.

Lemma deleteContainersInPod_unknown_filter_witness :
  let p := Kubelet.newPodContainerDeletor (R := list string) tt 0 in
  "c9" ≠ ""
  ∧ Forall (λ c, Kubelet.ContainerID_ID (Kubelet.ID c) ≠ "c9")
      (Kubelet.ContainerStatuses two_exited)
  ∧ Kubelet.deleteContainersInPod cons "exited" ContainerID_String
      p "c9" two_exited false = Done p.
Proof.
  intros p.
  assert ("c9" ≠ "") as H1 by discriminate.
  assert (Forall (λ c, Kubelet.ContainerID_ID (Kubelet.ID c) ≠ "c9")
            (Kubelet.ContainerStatuses two_exited)) as H2
    by (repeat constructor; discriminate).
  split; [exact H1|]. split; [exact H2|].
  exact (deleteContainersInPod_unknown_filter cons "exited" ContainerID_String
           p "c9" two_exited H1 H2).
Defined.

Lemma deleteContainersInPod_removes_selected_witness :
  Kubelet.getContainersToDeleteInPod "exited" "" two_exited 1
    = Done [exited "c1" "app" 10]
  ∧ Kubelet.deleteContainersInPod cons "exited" ContainerID_String
      (Kubelet.setRuntime (Kubelet.newPodContainerDeletor tt 1) (Some []))
      "" two_exited false
    = Done {| Kubelet.containersToKeep := 1;
              Kubelet.runtime := Some ["docker://c1"] |}.
Proof.
  assert (Kubelet.getContainersToDeleteInPod "exited" "" two_exited 1
          = Done [exited "c1" "app" 10]) as H1 by reflexivity.
  split; [exact H1|].
  exact (deleteContainersInPod_removes_selected cons "exited" ContainerID_String
           tt [] 1 "" two_exited false [exited "c1" "app" 10] H1).
Defined.
